(** * TaxiCalculator: a shallow embedding of [taxi_calculator.py]

    The calculator is a Python class with five class-level tables and five
    methods.  Python numbers are modelled as they are at run time: [int] is
    an unbounded integer ([Z]), [float] is an IEEE 754 binary64 number (the
    kernel's primitive [float], specified by [FloatAxioms] through
    [SpecFloat]), and [bool] is a subclass of [int].  Exceptions are the
    error side of a result monad; the entry point [main] writes its lines
    to a list, the standard output.

    Arguments range over the values [None], [bool], [int], [float] and
    [str], and over the tuples, lists, sets and dicts that hold such values.
    A [list], a [set] and a [dict] have no hash, so the membership test of
    [validate_tariff] raises [TypeError] on them.  Containers of containers
    and objects of other classes are not modelled. *)

From Stdlib Require Import ZArith Bool List String Lia Floats.
Import ListNotations.

Set Warnings "-inexact-float".

Local Open Scope string_scope.
Local Open Scope Z_scope.

(** ** Binary64 arithmetic that the interpreter performs outside [float * float] *)

Module Binary64.

(** The integer nearest to [num / den] ([den > 0]), ties to the even one. *)
Definition half_even (num den : Z) : Z :=
  let q := num / den in
  match 2 * (num mod den) ?= den with
  | Lt => q
  | Eq => if Z.even q then q else q + 1
  | Gt => q + 1
  end.

(** The least [d] with [a / b < 2 ^ d], for [0 < a < b * 2 ^ 1024]. *)
Definition mag (a b : Z) : Z :=
  let l := Z.log2 a - Z.log2 b in
  if b * 2 ^ 1100 <=? a * 2 ^ (1100 - l) then l + 1 else l.

(** The exponent of the binary64 numbers around [a / b]. *)
Definition cexp (a b : Z) : Z := fexp prec emax (mag a b).

(** The binary64 number of sign [s], mantissa [M] and exponent [E], where
    [M <= 2 ^ 53] comes out of a rounding: a mantissa of 54 bits moves
    to the next exponent, an exponent beyond the format is an infinity. *)
Definition pack (s : bool) (M E : Z) : spec_float :=
  if M <=? 0 then S754_zero s
  else
    let '(M', E') :=
      if M =? 2 ^ prec then (2 ^ (prec - 1), E + 1) else (M, E) in
    if E' <=? emax - prec then S754_finite s (Z.to_pos M') E'
    else S754_infinity s.

(** [RN s a b]: the binary64 number nearest to [(-1)^s * a / b], ties to
    even, for [0 <= a] and [0 < b]; overflow gives an infinity. *)
Definition RN (s : bool) (a b : Z) : spec_float :=
  if a <=? 0 then S754_zero s
  else if b * 2 ^ emax <=? a then S754_infinity s
  else
    let E := cexp a b in
    pack s (half_even (a * 2 ^ (emax - prec - E)) (b * 2 ^ (emax - prec))) E.

(** The value of a valid binary64 number times [2 ^ 1074], an integer. *)
Definition scaled (x : spec_float) : Z :=
  match x with
  | S754_finite s m e =>
      let v := Z.pos m * 2 ^ (e - emin) in if s then - v else v
  | _ => 0
  end.

Definition sign_of (x : spec_float) : bool :=
  match x with
  | S754_finite s _ _ | S754_zero s | S754_infinity s => s
  | S754_nan => false
  end.

(** [PyLong_AsDouble]: the nearest binary64 number, or no result when the
    integer is too large ([OverflowError]). *)
Definition of_Z (z : Z) : option float :=
  match RN (z <? 0) (Z.abs z) 1 with
  | S754_infinity _ => None
  | r => Some (SF2Prim r)
  end.

(** Exact comparison of a float with an integer, as [float_richcompare]
    does it; [None] when the float is a NaN. *)
Definition compare_Z (f : float) (z : Z) : option comparison :=
  match Prim2SF f with
  | S754_nan => None
  | S754_infinity s => Some (if s then Lt else Gt)
  | x => Some (scaled x ?= z * 2 ^ (- emin))
  end.

(** [float.__round__(ndigits)] for [0 <= ndigits]: the exact value is
    rounded to [ndigits] decimal places, ties to even ([_Py_dg_dtoa],
    mode 3), and the decimal result is converted to the nearest binary64
    number ([_Py_dg_strtod]).  Zeros, infinities and NaN round to
    themselves. *)
Definition round (f : float) (ndigits : nat) : float :=
  match Prim2SF f with
  | S754_finite s m e =>
      let p := 10 ^ Z.of_nat ndigits in
      let N := half_even (Z.abs (scaled (S754_finite s m e)) * p) (2 ^ (- emin)) in
      SF2Prim (RN s N p)
  | _ => f
  end.

(** Zeros and finite numbers: the values [scaled] reads. *)
Definition fin (x : spec_float) : bool :=
  match x with
  | S754_zero _ | S754_finite _ _ _ => true
  | _ => false
  end.

(** Not a NaN and no sign bit: [+0], a positive number or [+inf]. *)
Definition nonneg (f : float) : bool :=
  match Prim2SF f with
  | S754_nan => false
  | S754_zero s | S754_infinity s | S754_finite s _ _ => negb s
  end.

(** A positive finite number. *)
Definition pos_finite (f : float) : bool :=
  match Prim2SF f with
  | S754_finite false _ _ => true
  | _ => false
  end.

End Binary64.

(** ** Python values, exceptions and the operators the calculator uses *)

(** The values without parts, as a container holds them. *)
Inductive scalar : Type :=
| SNone
| SBool (b : bool)
| SInt (z : Z)
| SFloat (f : float)
| SStr (s : string).

Inductive PyVal : Type :=
| PyNone
| PyBool (b : bool)
| PyInt (z : Z)
| PyFloat (f : float)
| PyStr (s : string)
| PyTuple (items : list scalar)
| PyList (items : list scalar)
| PySet (items : list scalar)
| PyDict (items : list (scalar * scalar)).

(** An item of a container, as a value. *)
Definition item (a : scalar) : PyVal :=
  match a with
  | SNone => PyNone
  | SBool b => PyBool b
  | SInt z => PyInt z
  | SFloat f => PyFloat f
  | SStr s => PyStr s
  end.

(** An f-string before rendering: literal text and interpolated values. *)
Inductive frag : Type :=
| Text (s : string)
| Str (v : PyVal)                (* {v} *)
| TypeOf (v : PyVal)             (* {type(v)} *)
| TypeName (v : PyVal)           (* '{type(v).__name__}' *)
| StrList (vs : list PyVal).     (* {list(...)} *)

Definition message := list frag.

Inductive exn : Type :=
| TypeError (msg : message)
| ValueError (msg : message)
| OverflowError (msg : message)
| KeyError (key : PyVal).

(** The two error kinds of the specification, and everything else. *)
Inductive kind : Type := TypeKind | RangeKind | OtherKind.

Definition kind_of (e : exn) : kind :=
  match e with
  | TypeError _ => TypeKind
  | ValueError _ => RangeKind
  | _ => OtherKind
  end.

Inductive result (A : Type) : Type :=
| Ok (a : A)
| Raise (e : exn).
Arguments Ok {A} a.
Arguments Raise {A} e.

Definition bind {A B : Type} (c : result A) (k : A -> result B) : result B :=
  match c with
  | Ok a => k a
  | Raise e => Raise e
  end.

Notation "x <- c ;; k" := (bind c (fun x => k))
  (at level 61, c at next level, right associativity).
Notation "c ;; k" := (bind c (fun _ => k))
  (at level 61, right associativity).

(** [raised r]: the kind of the exception [r] stands for, if any. *)
Definition raised {A : Type} (r : result A) : option kind :=
  match r with
  | Ok _ => None
  | Raise e => Some (kind_of e)
  end.

(** Numbers: [bool] is a subclass of [int]. *)
Inductive num : Type :=
| NInt (z : Z)
| NFloat (f : float).

Definition to_num (v : PyVal) : option num :=
  match v with
  | PyBool b => Some (NInt (Z.b2z b))
  | PyInt z => Some (NInt z)
  | PyFloat f => Some (NFloat f)
  | _ => None
  end.

(** [isinstance(v, int)] and [isinstance(v, (int, float))]. *)
Definition isinstance_int (v : PyVal) : bool :=
  match v with
  | PyBool _ | PyInt _ => true
  | _ => false
  end.

Definition isinstance_int_float (v : PyVal) : bool :=
  match v with
  | PyBool _ | PyInt _ | PyFloat _ => true
  | _ => false
  end.

Definition float_cmp (x y : float) : option comparison :=
  match PrimFloat.compare x y with
  | FEq => Some Eq
  | FLt => Some Lt
  | FGt => Some Gt
  | FNotComparable => None
  end.

(** Comparison of two numbers; [int] against [float] is exact. *)
Definition num_cmp (x y : num) : option comparison :=
  match x, y with
  | NInt a, NInt b => Some (a ?= b)
  | NFloat a, NFloat b => float_cmp a b
  | NFloat a, NInt b => Binary64.compare_Z a b
  | NInt a, NFloat b => option_map CompOpp (Binary64.compare_Z b a)
  end.

Definition unsupported (op : string) (a b : PyVal) : exn :=
  TypeError [Text op; Text " not supported between instances of ";
             TypeOf a; Text " and "; TypeOf b].

(** The rich comparisons.  Every comparison of the calculator has an integer
    constant on one side, so the ordering of strings and of containers is
    not modelled: an operand that is not a number raises [TypeError], as it
    does against an integer. *)
Definition py_compare (op : string) (test : option comparison -> bool)
    (a b : PyVal) : result bool :=
  match to_num a, to_num b with
  | Some x, Some y => Ok (test (num_cmp x y))
  | _, _ => Raise (unsupported op a b)
  end.

Definition is_le (c : option comparison) : bool :=
  match c with Some Lt | Some Eq => true | _ => false end.
Definition is_gt (c : option comparison) : bool :=
  match c with Some Gt => true | _ => false end.
Definition is_eq (c : option comparison) : bool :=
  match c with Some Eq => true | _ => false end.

Definition py_le : PyVal -> PyVal -> result bool := py_compare "'<='" is_le.
Definition py_gt : PyVal -> PyVal -> result bool := py_compare "'>'" is_gt.

(** [a == b] on values without parts: numbers are compared by value
    across [bool], [int] and [float]. *)
Definition scalar_eq (a b : PyVal) : bool :=
  match a, b with
  | PyNone, PyNone => true
  | PyStr s, PyStr t => String.eqb s t
  | _, _ =>
      match to_num a, to_num b with
      | Some x, Some y => is_eq (num_cmp x y)
      | _, _ => false
      end
  end.

Definition item_eq (x y : scalar) : bool := scalar_eq (item x) (item y).

Fixpoint pairwise {A : Type} (eq : A -> A -> bool) (l1 l2 : list A) : bool :=
  match l1, l2 with
  | [], [] => true
  | x :: l1', y :: l2' => eq x y && pairwise eq l1' l2'
  | _, _ => false
  end.

(** [a == b]: tuples and lists are compared item by item, sets and dicts
    by their members, and a container equals no value of another type.  Two
    occurrences of a value are two objects: a NaN equals nothing, inside a
    container too. *)
Definition py_eq (a b : PyVal) : bool :=
  match a, b with
  | PyTuple xs, PyTuple ys | PyList xs, PyList ys => pairwise item_eq xs ys
  | PySet xs, PySet ys =>
      forallb (fun x => existsb (item_eq x) ys) xs &&
      forallb (fun y => existsb (fun x => item_eq x y) xs) ys
  | PyDict xs, PyDict ys =>
      let same '(k, v) '(k', v') := item_eq k k' && item_eq v v' in
      forallb (fun x => existsb (same x) ys) xs &&
      forallb (fun y => existsb (fun x => same x y) xs) ys
  | _, _ => scalar_eq a b
  end.

(** [hash(v)] fails on a [list], a [set] and a [dict].  The hash itself is
    not modelled, only whether there is one. *)
Definition py_hash (v : PyVal) : result unit :=
  match v with
  | PyList _ | PySet _ | PyDict _ =>
      Raise (TypeError [Text "unhashable type: "; TypeName v])
  | _ => Ok tt
  end.

(** [a * b] on numbers.  A float operand converts an integer one, which
    fails on an integer beyond the binary64 range.  Sequence repetition is
    not modelled: the calculator multiplies after [validate_distance]. *)
Definition py_mul (a b : PyVal) : result PyVal :=
  match to_num a, to_num b with
  | Some (NInt x), Some (NInt y) => Ok (PyInt (x * y))
  | Some (NFloat x), Some (NFloat y) => Ok (PyFloat (x * y))
  | Some (NFloat x), Some (NInt y) =>
      match Binary64.of_Z y with
      | Some y' => Ok (PyFloat (x * y'))
      | None => Raise (OverflowError [Text "int too large to convert to float"])
      end
  | Some (NInt x), Some (NFloat y) =>
      match Binary64.of_Z x with
      | Some x' => Ok (PyFloat (x' * y))
      | None => Raise (OverflowError [Text "int too large to convert to float"])
      end
  | _, _ => Raise (unsupported "'*'" a b)
  end.

(** [max(a, b)]: the first argument unless the second is greater. *)
Definition py_max (a b : PyVal) : result PyVal :=
  gt <- py_gt b a ;;
  Ok (if gt then b else a).

(** [round(v, ndigits)] for [0 <= ndigits]: an integer is returned as it is. *)
Definition py_round (v : PyVal) (ndigits : nat) : result PyVal :=
  match v with
  | PyFloat f => Ok (PyFloat (Binary64.round f ndigits))
  | PyInt z => Ok (PyInt z)
  | PyBool b => Ok (PyInt (Z.b2z b))
  | _ => Raise (TypeError [Text "type "; TypeOf v; Text " doesn't define __round__ method"])
  end.

(** A [dict] keeps its items in insertion order; keys are compared with [==]. *)
Definition dict := list (PyVal * PyVal).

Fixpoint dict_get (d : dict) (k : PyVal) : option PyVal :=
  match d with
  | [] => None
  | (k', v) :: d' => if py_eq k' k then Some v else dict_get d' k
  end.

(** [k in d], [d[k]] and [list(d.keys())]: a lookup hashes the key first,
    whatever the [dict] holds. *)
Definition dict_contains (d : dict) (k : PyVal) : result bool :=
  py_hash k ;;
  Ok (match dict_get d k with Some _ => true | None => false end).

Definition dict_getitem (d : dict) (k : PyVal) : result PyVal :=
  py_hash k ;;
  match dict_get d k with
  | Some v => Ok v
  | None => Raise (KeyError k)
  end.

Definition dict_keys (d : dict) : list PyVal := map fst d.

(** ** The class *)

Record Class : Type := {
  TARIFF_RATES : dict;
  MIN_FARE : PyVal;
  TRAFFIC_MULTIPLIERS : dict;
  WEATHER_MULTIPLIERS : dict;
  OVERLOAD_MULTIPLIERS : dict
}.

Definition TaxiCalculator : Class := {|
  TARIFF_RATES :=
    [ (PyStr "эконом", PyInt 100);
      (PyStr "комфорт", PyInt 150);
      (PyStr "комфорт_плюс", PyInt 200);
      (PyStr "бизнес", PyInt 300) ];
  MIN_FARE := PyInt 50;
  TRAFFIC_MULTIPLIERS :=
    [ (PyInt 1, PyFloat 1.0);
      (PyInt 2, PyFloat 1.1);
      (PyInt 3, PyFloat 1.25);
      (PyInt 4, PyFloat 1.5);
      (PyInt 5, PyFloat 2.0) ];
  WEATHER_MULTIPLIERS :=
    [ (PyInt 1, PyFloat 1.0);
      (PyInt 2, PyFloat 1.05);
      (PyInt 3, PyFloat 1.15);
      (PyInt 4, PyFloat 1.3);
      (PyInt 5, PyFloat 1.5) ];
  OVERLOAD_MULTIPLIERS :=
    [ (PyInt 1, PyFloat 1.0);
      (PyInt 2, PyFloat 1.1);
      (PyInt 3, PyFloat 1.25);
      (PyInt 4, PyFloat 1.5);
      (PyInt 5, PyFloat 2.0) ]
|}.

Section Methods.

(** [self] reaches the methods that read a class attribute. *)
Variable self : Class.

(** [TypeError] unless the distance is an [int] or a [float], then
    [ValueError] if it is [<= 0]. *)
Definition validate_distance (distance : PyVal) : result unit :=
  if negb (isinstance_int_float distance) then
    Raise (TypeError [Text "Расстояние должно быть числом, получено: ";
                      TypeOf distance])
  else
    nonpositive <- py_le distance (PyInt 0) ;;
    if nonpositive : bool then
      Raise (ValueError [Text "Расстояние должно быть положительным, получено: ";
                         Str distance])
    else Ok tt.

(** [ValueError] unless the tariff is a key of [TARIFF_RATES]; the
    membership test itself raises [TypeError] on a tariff without a hash. *)
Definition validate_tariff (tariff : PyVal) : result unit :=
  found <- dict_contains (TARIFF_RATES self) tariff ;;
  if negb found then
    Raise (ValueError [Text "Неподдерживаемый тариф: "; Str tariff;
                       Text ". "; Text "Доступные: ";
                       StrList (dict_keys (TARIFF_RATES self))])
  else Ok tt.

(** [TypeError] unless the rating is an [int], then [ValueError] unless
    it lies in [1, 5]; [rating_type] goes into the text of the latter. *)
Definition validate_rating (rating : PyVal) (rating_type : string) : result unit :=
  if negb (isinstance_int rating) then
    Raise (TypeError [Text "Рейтинг должен быть целым числом, получено: ";
                      TypeOf rating])
  else
    (* 1 <= rating <= 5: the second comparison only when the first holds *)
    low <- py_le (PyInt 1) rating ;;
    inside <- (if low : bool then py_le rating (PyInt 5) else Ok false) ;;
    if negb inside then
      Raise (ValueError [Text "Рейтинг "; Text rating_type;
                         Text " должен быть от 1 до 5, получено: "; Str rating])
    else Ok tt.

(** The body of [calculate_fare] after its validations: base fare, the
    three multipliers, their product, the minimum fare, the rounding. *)
Definition fare_of (distance tariff traffic_rating weather_rating
    overload_rating : PyVal) : result PyVal :=
  base_rate <- dict_getitem (TARIFF_RATES self) tariff ;;
  base_fare <- py_mul distance base_rate ;;
  traffic_multiplier <- dict_getitem (TRAFFIC_MULTIPLIERS self) traffic_rating ;;
  weather_multiplier <- dict_getitem (WEATHER_MULTIPLIERS self) weather_rating ;;
  overload_multiplier <- dict_getitem (OVERLOAD_MULTIPLIERS self) overload_rating ;;
  tw <- py_mul traffic_multiplier weather_multiplier ;;
  total_multiplier <- py_mul tw overload_multiplier ;;
  fare <- py_mul base_fare total_multiplier ;;
  fare <- py_max fare (MIN_FARE self) ;;
  fare <- py_round fare 2 ;;
  Ok fare.

Section Labels.

(** The labels handed to the three rating validations. *)
Variables traffic_label weather_label overload_label : string.

Definition calculate_fare_labelled (distance tariff traffic_rating
    weather_rating overload_rating : PyVal) : result PyVal :=
  validate_distance distance ;;
  validate_tariff tariff ;;
  validate_rating traffic_rating traffic_label ;;
  validate_rating weather_rating weather_label ;;
  validate_rating overload_rating overload_label ;;
  fare_of distance tariff traffic_rating weather_rating overload_rating.

End Labels.

(** [calculate_fare]: the five validations in their order, then the fare. *)
Definition calculate_fare : PyVal -> PyVal -> PyVal -> PyVal -> PyVal -> result PyVal :=
  calculate_fare_labelled "пробок" "непогоды" "спроса".

End Methods.

(** The default of the three rating parameters. *)
Definition default_rating : PyVal := PyInt 1.

(** [get_tariff_info]: a new [dict] of three entries, modelled as a record.
    The list of tariffs is built by the call; the rates are the class
    attribute itself (no copy is made), and so is the minimum fare.  The
    method is a function of the class alone: it has no state to change. *)
Record TariffInfo : Type := {
  info_tariffs : list PyVal;          (* 'тарифы' *)
  info_rates : dict;                  (* 'ставки' *)
  info_min_fare : PyVal               (* 'минимальная_стоимость' *)
}.

Definition get_tariff_info (self : Class) : TariffInfo := {|
  info_tariffs := dict_keys (TARIFF_RATES self);
  info_rates := TARIFF_RATES self;
  info_min_fare := MIN_FARE self
|}.

(** ** The entry point [main] *)

(** Standard output: the lines printed so far, with what the run gave. *)
Definition io (A : Type) : Type := list message * result A.

Definition io_bind {A B : Type} (c : io A) (k : A -> io B) : io B :=
  match c with
  | (out, Ok a) => let '(out', r) := k a in ((out ++ out')%list, r)
  | (out, Raise e) => (out, Raise e)
  end.



Notation "x <~ c ;; k" := (io_bind c (fun x => k))
  (at level 61, c at next level, right associativity).
Notation "c ;;; k" := (io_bind c (fun _ => k))
  (at level 61, right associativity).




(** ** The words of the specification *)

(** [returns r x]: the call [r] returns a value equal ([==]) to [x]. *)
Definition returns (r : result PyVal) (x : PyVal) : Prop :=
  exists v, r = Ok v /\ py_eq v x = true.

(** What a caller can tell of a call: the value, or the kind of the error. *)
Definition outcome {A : Type} (r : result A) : A + kind :=
  match r with
  | Ok a => inl a
  | Raise e => inr (kind_of e)
  end.

(** The first failure of a sequence of checks. *)
Fixpoint first_failure (checks : list (result unit)) : option exn :=
  match checks with
  | [] => None
  | Ok _ :: rest => first_failure rest
  | Raise e :: _ => Some e
  end.

(** [float(v)] of a number (the parsing of strings is not modelled). *)
Definition py_float (v : PyVal) : result PyVal :=
  match to_num v with
  | Some (NFloat f) => Ok (PyFloat f)
  | Some (NInt z) =>
      match Binary64.of_Z z with
      | Some f => Ok (PyFloat f)
      | None => Raise (OverflowError [Text "int too large to convert to float"])
      end
  | None =>
      Raise (TypeError [Text "float() argument must be a string or a real number, not ";
                        TypeOf v])
  end.

(** [v.is_integer()] for a float, and true of an integer. *)
Definition is_integral (v : PyVal) : bool :=
  match v with
  | PyBool _ | PyInt _ => true
  | PyFloat f =>
      match Prim2SF f with
      | S754_zero _ => true
      | S754_finite s m e => Binary64.scaled (S754_finite s m e) mod 2 ^ (- emin) =? 0
      | _ => false
      end
  | _ => false
  end.

(** A hundred times the exact value of [v] is an integer. *)
Definition hundredfold_integral (v : PyVal) : bool :=
  match v with
  | PyBool _ | PyInt _ => true
  | PyFloat f =>
      match Prim2SF f with
      | S754_zero _ => true
      | S754_finite s m e =>
          (100 * Binary64.scaled (S754_finite s m e)) mod 2 ^ (- emin) =? 0
      | _ => false
      end
  | _ => false
  end.

(** The preconditions of a fare request, in the words of the specification. *)
Definition is_positive (d : PyVal) : bool :=
  match d with
  | PyBool b => b
  | PyInt z => 0 <? z
  | PyFloat f => (0 <? f)%float
  | _ => false
  end.

Definition nonpositive (d : PyVal) : bool :=
  match d with
  | PyBool b => negb b
  | PyInt z => z <=? 0
  | PyFloat f => (f <=? 0)%float
  | _ => false
  end.

Definition in_catalog (t : PyVal) : bool :=
  match t with
  | PyStr s => existsb (String.eqb s) ["эконом"; "комфорт"; "комфорт_плюс"; "бизнес"]
  | _ => false
  end.

(** The integer a rating stands for. *)
Definition rating_level (r : PyVal) : option Z :=
  match r with
  | PyBool b => Some (Z.b2z b)
  | PyInt z => Some z
  | _ => None
  end.

Definition out_of_range (r : PyVal) : bool :=
  match rating_level r with
  | Some z => negb ((1 <=? z) && (z <=? 5))
  | None => false
  end.

Definition valid_rating (r : PyVal) : bool :=
  isinstance_int r && negb (out_of_range r).

Definition valid_input (d t r w o : PyVal) : bool :=
  is_positive d && in_catalog t && valid_rating r && valid_rating w && valid_rating o.

(** The rate of a tariff of the catalog. *)
Definition rate_of (t : PyVal) : option Z :=
  match t with
  | PyStr s =>
      if String.eqb s "эконом" then Some 100
      else if String.eqb s "комфорт" then Some 150
      else if String.eqb s "комфорт_плюс" then Some 200
      else if String.eqb s "бизнес" then Some 300
      else None
  | _ => None
  end.

(** The least positive integer without a binary64 number: the midpoint of
    the largest one, [2 ^ 1024 - 2 ^ 971], and [2 ^ 1024]. *)
Definition overflow_threshold : Z := 2 ^ 1024 - 2 ^ 970.

(** The base fare [d * rate] of an integer distance is beyond binary64. *)
Definition overflows (d : PyVal) (rate : Z) : bool :=
  match to_num d with
  | Some (NInt z) => overflow_threshold <=? z * rate
  | _ => false
  end.


(** A value with a hash: no [list], [set] or [dict]. *)
Definition hashable (t : PyVal) : bool :=
  match t with
  | PyList _ | PySet _ | PyDict _ => false
  | _ => true
  end.

(** The constraint each check enforces, and the kind of its violation. *)
Definition distance_violation (d : PyVal) : option kind :=
  if negb (isinstance_int_float d) then Some TypeKind
  else if nonpositive d then Some RangeKind
  else None.

Definition tariff_violation (t : PyVal) : option kind :=
  if negb (hashable t) then Some TypeKind
  else if in_catalog t then None else Some RangeKind.

Definition rating_violation (r : PyVal) : option kind :=
  if negb (isinstance_int r) then Some TypeKind
  else if out_of_range r then Some RangeKind
  else None.

Fixpoint first_some {A : Type} (l : list (option A)) : option A :=
  match l with
  | [] => None
  | Some a :: _ => Some a
  | None :: rest => first_some rest
  end.

(** The first violated constraint in the order distance, tariff, traffic,
    weather, demand. *)
Definition first_violation (d t r w o : PyVal) : option kind :=
  first_some [distance_violation d; tariff_violation t; rating_violation r;
              rating_violation w; rating_violation o].

(** The fare that lies behind a float [F]: the minimum fare, an integer,
    when [F] is below it, and [F] rounded to two places otherwise. *)
Definition clamp_round (F : float) : PyVal :=
  if (F <? 50)%float then PyInt 50 else PyFloat (Binary64.round F 2).

(** The product of the three multipliers of valid ratings, as
    [calculate_fare] forms it. *)
Definition multiplier (table : dict) (r : PyVal) : float :=
  match dict_get table r with
  | Some (PyFloat m) => m
  | _ => nan
  end.

Definition total_multiplier (self : Class) (r w o : PyVal) : float :=
  (multiplier (TRAFFIC_MULTIPLIERS self) r * multiplier (WEATHER_MULTIPLIERS self) w
   * multiplier (OVERLOAD_MULTIPLIERS self) o)%float.

(** The fare of a decimal number of hundredths: the binary64 number
    nearest to [N / 100]. *)
Definition hundredths (N : Z) : float := SF2Prim (Binary64.RN false N 100).

(** One rating is raised by one step, the other two are kept. *)
Definition next_level (r r' : PyVal) : bool :=
  match rating_level r, rating_level r' with
  | Some a, Some b => b =? a + 1
  | _, _ => false
  end.

Inductive one_step : PyVal * PyVal * PyVal -> PyVal * PyVal * PyVal -> Prop :=
| step_traffic r r' w o : next_level r r' = true -> one_step (r, w, o) (r', w, o)
| step_weather r w w' o : next_level w w' = true -> one_step (r, w, o) (r, w', o)
| step_overload r w o o' : next_level o o' = true -> one_step (r, w, o) (r, w, o').


(** The exact value of a finite number, times [2 ^ 1074]. *)
Definition exact_value (d : PyVal) : option Z :=
  match to_num d with
  | Some (NInt z) => Some (z * 2 ^ 1074)
  | Some (NFloat f) =>
      if Binary64.fin (Prim2SF f) then Some (Binary64.scaled (Prim2SF f)) else None
  | None => None
  end.

(** * Facts *)

(** ** Rounding to binary64

    [Binary64.RN] is related to [SpecFloat]'s rounding of an exact product,
    and shown to be monotone and to fix the binary64 numbers. *)

Module Binary64Facts.
Import Binary64.

Section HalfEven.
Variables (den : Z).
Hypothesis Hden : 0 < den.

Lemma half_even_bounds num :
  let M := half_even num den in
  (2 * M - 1) * den <= 2 * num <= (2 * M + 1) * den.
Proof.
  unfold half_even.
  pose proof (Z.div_mod num den ltac:(lia)) as Hdm.
  pose proof (Z.mod_pos_bound num den Hden) as Hr.
  set (q := num / den) in *. set (r := num mod den) in *.
  destruct (Z.compare_spec (2 * r) den); [destruct (Z.even q)| |]; cbv zeta; nia.
Qed.

Lemma half_even_tie_up num :
  2 * num = (2 * half_even num den + 1) * den -> Z.even (half_even num den) = true.
Proof.
  unfold half_even.
  pose proof (Z.div_mod num den ltac:(lia)) as Hdm.
  pose proof (Z.mod_pos_bound num den Hden) as Hr.
  set (q := num / den) in *. set (r := num mod den) in *.
  destruct (Z.compare_spec (2 * r) den) as [E|E|E].
  - destruct (Z.even q) eqn:Hq; [trivial|]. intros; nia.
  - intros; nia.
  - intros; nia.
Qed.

Lemma half_even_tie_down num :
  2 * num = (2 * half_even num den - 1) * den -> Z.even (half_even num den) = true.
Proof.
  unfold half_even.
  pose proof (Z.div_mod num den ltac:(lia)) as Hdm.
  pose proof (Z.mod_pos_bound num den Hden) as Hr.
  set (q := num / den) in *. set (r := num mod den) in *.
  destruct (Z.compare_spec (2 * r) den) as [E|E|E].
  - destruct (Z.even q) eqn:Hq; intros; [nia|].
    rewrite Z.even_add, Hq. reflexivity.
  - intros; nia.
  - intros; nia.
Qed.

Lemma half_even_mono n1 n2 :
  n1 <= n2 -> half_even n1 den <= half_even n2 den.
Proof.
  intros Hle.
  pose proof (half_even_bounds n1) as B1. pose proof (half_even_bounds n2) as B2.
  pose proof (half_even_tie_down n1) as T1. pose proof (half_even_tie_up n2) as T2.
  cbv zeta in B1, B2.
  set (M1 := half_even n1 den) in *. set (M2 := half_even n2 den) in *.
  destruct (Z_le_gt_dec M1 M2) as [|Hgt]; [assumption|exfalso].
  assert (HM : M1 = M2 + 1) by nia.
  assert (E1 : 2 * n1 = (2 * M1 - 1) * den) by nia.
  assert (E2 : 2 * n2 = (2 * M2 + 1) * den) by nia.
  specialize (T1 E1). specialize (T2 E2).
  rewrite HM, Z.even_add, T2 in T1. discriminate.
Qed.

Lemma half_even_exact k : half_even (k * den) den = k.
Proof.
  unfold half_even. rewrite Z.div_mul, Z.mod_mul by lia.
  destruct (Z.compare_spec (2 * 0) den); try lia; reflexivity.
Qed.

Lemma half_even_ge k num : k * den <= num -> k <= half_even num den.
Proof. intros H. rewrite <- (half_even_exact k). now apply half_even_mono. Qed.

Lemma half_even_le k num : num <= k * den -> half_even num den <= k.
Proof. intros H. rewrite <- (half_even_exact k). now apply half_even_mono. Qed.

End HalfEven.

Lemma half_even_scale k num den :
  0 < k -> 0 < den -> half_even (k * num) (k * den) = half_even num den.
Proof.
  intros Hk Hd. unfold half_even.
  rewrite Z.div_mul_cancel_l, Z.mul_mod_distr_l by lia.
  destruct (Z.compare_spec (2 * (num mod den)) den);
    destruct (Z.compare_spec (2 * (k * (num mod den))) (k * den)); try reflexivity; nia.
Qed.

(** Powers of two *)
Lemma pow2_pos k : 0 <= k -> 0 < 2 ^ k.
Proof. intros. apply Z.pow_pos_nonneg; lia. Qed.

Lemma shift_lt a b p q t :
  0 <= p -> 0 <= q -> 0 <= p + t -> 0 <= q + t ->
  a * 2 ^ p < b * 2 ^ q -> a * 2 ^ (p + t) < b * 2 ^ (q + t).
Proof.
  intros Hp Hq Hpt Hqt H.
  destruct (Z_le_gt_dec 0 t).
  - rewrite !Z.pow_add_r, !Z.mul_assoc by lia.
    apply Z.mul_lt_mono_pos_r; [apply pow2_pos; lia | assumption].
  - replace p with ((p + t) + (- t)) in H by lia.
    replace q with ((q + t) + (- t)) in H by lia.
    rewrite (Z.pow_add_r 2 (p + t) (- t)), (Z.pow_add_r 2 (q + t) (- t)), !Z.mul_assoc in H by lia.
    apply Z.mul_lt_mono_pos_r in H; [assumption | apply pow2_pos; lia].
Qed.

Lemma shift_le a b p q t :
  0 <= p -> 0 <= q -> 0 <= p + t -> 0 <= q + t ->
  a * 2 ^ p <= b * 2 ^ q -> a * 2 ^ (p + t) <= b * 2 ^ (q + t).
Proof.
  intros Hp Hq Hpt Hqt H.
  destruct (Z_le_gt_dec 0 t).
  - rewrite !Z.pow_add_r, !Z.mul_assoc by lia.
    apply Z.mul_le_mono_nonneg_r; [apply Z.lt_le_incl, pow2_pos; lia | assumption].
  - replace p with ((p + t) + (- t)) in H by lia.
    replace q with ((q + t) + (- t)) in H by lia.
    rewrite (Z.pow_add_r 2 (p + t) (- t)), (Z.pow_add_r 2 (q + t) (- t)), !Z.mul_assoc in H by lia.
    apply Z.mul_le_mono_pos_r in H; [assumption | apply pow2_pos; lia].
Qed.

Lemma pow2_le_mono p q : 0 <= p <= q -> 2 ^ p <= 2 ^ q.
Proof. intros. apply Z.pow_le_mono_r; lia. Qed.

Lemma fexp_eq d : fexp prec emax d = Z.max (d - 53) (-1074).
Proof. reflexivity. Qed.

Lemma mag_spec a b :
  0 < b -> 0 < a -> a < b * 2 ^ 1024 ->
  let d := mag a b in
  d <= 1024 /\ a * 2 ^ (1100 - d) < b * 2 ^ 1100 /\ b * 2 ^ 1100 <= a * 2 ^ (1101 - d).
Proof.
  intros Hb Ha Hab. unfold mag.
  destruct (Z.log2_spec a Ha) as [La Ua]. destruct (Z.log2_spec b Hb) as [Lb Ub].
  pose proof (Z.log2_nonneg a) as Na. pose proof (Z.log2_nonneg b) as Nb.
  set (la := Z.log2 a) in *. set (lb := Z.log2 b) in *.
  assert (Hl : la - lb <= 1024).
  { assert (2 ^ la < 2 ^ (Z.succ lb + 1024)).
    { rewrite Z.pow_add_r by lia. eapply Z.le_lt_trans; [exact La|].
      eapply Z.lt_trans; [exact Hab|]. apply Z.mul_lt_mono_pos_r; [apply pow2_pos; lia|lia]. }
    apply Z.pow_lt_mono_r_iff in H; lia. }
  destruct (Z.leb_spec (b * 2 ^ 1100) (a * 2 ^ (1100 - (la - lb)))) as [T|T]; cbv zeta.
  - assert (la - lb <> 1024).
    { intros E. rewrite E in T. change (1100 - 1024) with 76 in T.
      change 1100 with (1024 + 76) in T. rewrite Z.pow_add_r, Z.mul_assoc in T by lia.
      apply Z.mul_le_mono_pos_r in T; [lia | apply pow2_pos; lia]. }
    split; [lia|]. split.
    + replace (1100 - (la - lb + 1)) with (1099 - la + lb) by lia.
      apply Z.lt_le_trans with (2 ^ (Z.succ la) * 2 ^ (1099 - la + lb)).
      * apply Z.mul_lt_mono_pos_r; [apply pow2_pos; lia | lia].
      * rewrite <- Z.pow_add_r by lia.
        replace (Z.succ la + (1099 - la + lb)) with (lb + 1100) by lia.
        rewrite Z.pow_add_r by lia.
        apply Z.mul_le_mono_nonneg_r; [apply Z.lt_le_incl, pow2_pos; lia | lia].
    + replace (1101 - (la - lb + 1)) with (1100 - (la - lb)) by lia. exact T.
  - split; [lia|]. split; [exact T|].
    apply Z.le_trans with (2 ^ (Z.succ lb) * 2 ^ 1100).
    + apply Z.mul_le_mono_nonneg_r; [apply Z.lt_le_incl, pow2_pos; lia | lia].
    + rewrite <- Z.pow_add_r by lia.
      replace (Z.succ lb + 1100) with (la + (1101 - (la - lb))) by lia.
      rewrite Z.pow_add_r by lia.
      apply Z.mul_le_mono_nonneg_r; [apply Z.lt_le_incl, pow2_pos; lia | lia].
Qed.

Lemma cexp_spec a b :
  0 < b -> 0 < a -> a < b * 2 ^ 1024 ->
  let E := cexp a b in
  -1074 <= E <= 971 /\
  a * 2 ^ (971 - E) < b * 2 ^ 971 * 2 ^ 53 /\
  (E = -1074 \/ b * 2 ^ 971 * 2 ^ 52 <= a * 2 ^ (971 - E)).
Proof.
  intros Hb Ha Hab. destruct (mag_spec a b Hb Ha Hab) as (Hd & Hlt & Hge).
  unfold cexp. rewrite fexp_eq. set (d := mag a b) in *. cbv zeta.
  set (E := Z.max (d - 53) (-1074)).
  assert (HE : -1074 <= E <= 971) by lia.
  split; [assumption|]. split.
  - set (t := Z.max (d - E - 129) (-1100)).
    apply (shift_lt a b (1100 - d) 1100 t) in Hlt; try lia.
    apply Z.le_lt_trans with (a * 2 ^ (1100 - d + t)).
    { apply Z.mul_le_mono_nonneg_l; [lia|]. apply pow2_le_mono. lia. }
    eapply Z.lt_le_trans; [exact Hlt|].
    rewrite <- Z.mul_assoc, <- Z.pow_add_r by lia.
    apply Z.mul_le_mono_nonneg_l; [lia|]. apply pow2_le_mono. lia.
  - destruct (Z.eq_dec E (-1074)) as [|NE]; [left; assumption | right].
    assert (E = d - 53) by lia.
    apply (shift_le b a 1100 (1101 - d) (-77)) in Hge; try lia.
    rewrite <- Z.mul_assoc, <- Z.pow_add_r by lia.
    replace (1100 + -77) with (971 + 52) in Hge by lia.
    replace (1101 - d + -77) with (971 - E) in Hge by lia. exact Hge.
Qed.

Lemma cexp_mono a1 a2 b :
  0 < b -> 0 < a1 -> a1 <= a2 -> a2 < b * 2 ^ 1024 -> cexp a1 b <= cexp a2 b.
Proof.
  intros Hb Ha1 Hle Ha2.
  destruct (cexp_spec a1 b) as (B1 & U1 & L1); try lia.
  destruct (cexp_spec a2 b) as (B2 & U2 & L2); try lia.
  set (E1 := cexp a1 b) in *. set (E2 := cexp a2 b) in *.
  destruct (Z_le_gt_dec E1 E2) as [|Hgt]; [assumption|exfalso].
  destruct L1 as [L1|L1]; [lia|].
  assert (a1 * 2 ^ (971 - E1) * 2 ^ (E1 - E2) <= a2 * 2 ^ (971 - E2)).
  { rewrite <- Z.mul_assoc, <- Z.pow_add_r by lia.
    replace (971 - E1 + (E1 - E2)) with (971 - E2) by lia.
    apply Z.mul_le_mono_nonneg_r; [apply Z.lt_le_incl, pow2_pos; lia | lia]. }
  assert (2 * 1 <= 2 ^ (E1 - E2)).
  { change (2 * 1) with (2 ^ 1). apply pow2_le_mono. lia. }
  assert (0 < b * 2 ^ 971) by (apply Z.mul_pos_pos; [lia | apply pow2_pos; lia]).
  change (2 ^ 53) with (2 ^ 52 * 2) in U2.
  assert (0 < 2 ^ 52) by (apply pow2_pos; lia).
  set (X := b * 2 ^ 971) in *. set (Y := a1 * 2 ^ (971 - E1)) in *.
  set (P := 2 ^ (E1 - E2)) in *. set (Q := 2 ^ 52) in *.
  assert (0 < X * Q) by (apply Z.mul_pos_pos; lia).
  assert (Y * 2 <= Y * P) by (apply Z.mul_le_mono_nonneg_l; lia).
  lia.
Qed.

(** Mantissas and canonical exponents *)
Lemma digits2_pos_size m : digits2_pos m = Pos.size m.
Proof. induction m; simpl; congruence. Qed.

Lemma digits2_log2 m : Z.pos (digits2_pos m) = Z.log2 (Z.pos m) + 1.
Proof.
  rewrite digits2_pos_size. destruct m; simpl; try reflexivity; rewrite Pos.add_1_r; reflexivity.
Qed.

Lemma digits_le_53 m : Z.pos m < 2 ^ 53 -> Z.pos (digits2_pos m) <= 53.
Proof.
  intros H. rewrite digits2_log2.
  assert (Z.log2 (Z.pos m) < 53) by (apply Z.log2_lt_pow2; lia). lia.
Qed.

Lemma digits_ge_53 m : 2 ^ 52 <= Z.pos m -> 53 <= Z.pos (digits2_pos m).
Proof.
  intros H. rewrite digits2_log2.
  assert (52 <= Z.log2 (Z.pos m)) by (apply Z.log2_le_pow2; lia). lia.
Qed.

Lemma bounded_spec m e :
  bounded prec emax m e = true <->
  -1074 <= e <= 971 /\ Z.pos m < 2 ^ 53 /\ (e = -1074 \/ 2 ^ 52 <= Z.pos m).
Proof.
  unfold bounded, canonical_mantissa. rewrite andb_true_iff, Z.eqb_eq, Z.leb_le, fexp_eq.
  change (emax - prec) with 971.
  pose proof (digits2_log2 m) as Hd.
  destruct (Z.log2_spec (Z.pos m) ltac:(lia)) as [L U].
  pose proof (Z.log2_nonneg (Z.pos m)) as N.
  set (l := Z.log2 (Z.pos m)) in *.
  split.
  - intros [Hc He].
    assert (l <= 52) by lia.
    split; [lia|]. split.
    + eapply Z.lt_le_trans; [exact U|]. apply pow2_le_mono. lia.
    + destruct (Z.eq_dec e (-1074)); [left; assumption | right].
      assert (l = 52) by lia. subst l. rewrite <- H0. exact L.
  - intros (He & Hm & Hn).
    assert (l < 53) by (apply Z.log2_lt_pow2; lia).
    split; [|lia].
    destruct Hn as [Hn|Hn]; [lia|].
    assert (52 <= l) by (apply Z.log2_le_pow2; lia). lia.
Qed.

Lemma scaled_lt_exp m1 e1 m2 e2 :
  bounded prec emax m1 e1 = true -> bounded prec emax m2 e2 = true -> e1 < e2 ->
  Z.pos m1 * 2 ^ (e1 - emin) < Z.pos m2 * 2 ^ (e2 - emin).
Proof.
  rewrite !bounded_spec. change emin with (-1074).
  intros (B1 & U1 & _) (B2 & _ & L2) Hlt.
  destruct L2 as [L2|L2]; [lia|].
  apply Z.lt_le_trans with (2 ^ 53 * 2 ^ (e1 - -1074)).
  - apply Z.mul_lt_mono_pos_r; [apply pow2_pos; lia | assumption].
  - apply Z.le_trans with (2 ^ 52 * 2 ^ (e2 - -1074)).
    + rewrite <- !Z.pow_add_r by lia. apply pow2_le_mono. lia.
    + apply Z.mul_le_mono_nonneg_r; [apply Z.lt_le_incl, pow2_pos; lia | assumption].
Qed.

Lemma SFcompare_pos m1 e1 m2 e2 :
  bounded prec emax m1 e1 = true -> bounded prec emax m2 e2 = true ->
  match (e1 ?= e2) with
  | Lt => Lt
  | Gt => Gt
  | Eq => Pos.compare_cont Eq m1 m2
  end = (Z.pos m1 * 2 ^ (e1 - emin) ?= Z.pos m2 * 2 ^ (e2 - emin)).
Proof.
  intros V1 V2. destruct (Z.compare_spec e1 e2) as [E|L|G].
  - subst e2. symmetry.
    assert (0 < 2 ^ (e1 - emin)).
    { apply bounded_spec in V1. change emin with (-1074). apply pow2_pos. lia. }
    change (Pos.compare_cont Eq m1 m2) with (Z.pos m1 ?= Z.pos m2).
    destruct (Z.compare_spec (Z.pos m1) (Z.pos m2)) as [E|L|G].
    + rewrite E. apply Z.compare_refl.
    + apply Z.compare_lt_iff. apply Z.mul_lt_mono_pos_r; assumption.
    + apply Z.compare_gt_iff. apply Z.mul_lt_mono_pos_r; assumption.
  - symmetry. apply Z.compare_lt_iff. now apply scaled_lt_exp.
  - symmetry. apply Z.compare_gt_iff. now apply scaled_lt_exp.
Qed.

Lemma SFcompare_scaled x y :
  valid_binary x = true -> valid_binary y = true -> fin x = true -> fin y = true ->
  SFcompare x y = Some (scaled x ?= scaled y).
Proof.
  destruct x as [sx| | |sx mx ex], y as [sy| | |sy my ey]; try discriminate;
    cbn [SFcompare scaled valid_binary fin]; intros Vx Vy _ _.
  - reflexivity.
  - assert (0 < Z.pos my * 2 ^ (ey - emin)).
    { apply bounded_spec in Vy. apply Z.mul_pos_pos; [lia|]. change emin with (-1074). apply pow2_pos; lia. }
    destruct sy; f_equal; symmetry; [apply Z.compare_gt_iff | apply Z.compare_lt_iff]; lia.
  - assert (0 < Z.pos mx * 2 ^ (ex - emin)).
    { apply bounded_spec in Vx. apply Z.mul_pos_pos; [lia|]. change emin with (-1074). apply pow2_pos; lia. }
    destruct sx; f_equal; symmetry; [apply Z.compare_lt_iff | apply Z.compare_gt_iff]; lia.
  - assert (0 < Z.pos mx * 2 ^ (ex - emin)).
    { apply bounded_spec in Vx. apply Z.mul_pos_pos; [lia|]. change emin with (-1074). apply pow2_pos; lia. }
    assert (0 < Z.pos my * 2 ^ (ey - emin)).
    { apply bounded_spec in Vy. apply Z.mul_pos_pos; [lia|]. change emin with (-1074). apply pow2_pos; lia. }
    pose proof (SFcompare_pos mx ex my ey Vx Vy) as P.
    destruct sx, sy; f_equal.
    + rewrite Z.compare_opp. rewrite <- (SFcompare_pos my ey mx ex Vy Vx).
      rewrite (Z.compare_antisym ey ex).
      destruct (ey ?= ex); simpl; try reflexivity.
      rewrite Pos.compare_cont_antisym. reflexivity.
    + symmetry. apply Z.compare_lt_iff. lia.
    + symmetry. apply Z.compare_gt_iff. lia.
    + exact P.
Qed.

(** Rounding to the nearest binary64 number *)
Lemma RN_mantissa a b :
  0 < b -> 0 < a -> a < b * 2 ^ 1024 ->
  let E := cexp a b in
  let M := half_even (a * 2 ^ (971 - E)) (b * 2 ^ 971) in
  -1074 <= E <= 971 /\ 0 <= M <= 2 ^ 53 /\ (E = -1074 \/ 2 ^ 52 <= M).
Proof.
  intros Hb Ha Hab. destruct (cexp_spec a b Hb Ha Hab) as (HE & U & L).
  set (E := cexp a b) in *. cbv zeta.
  assert (Hden : 0 < b * 2 ^ 971) by (apply Z.mul_pos_pos; [lia | apply pow2_pos; lia]).
  assert (Hnum : 0 <= a * 2 ^ (971 - E)).
  { apply Z.mul_nonneg_nonneg; [lia | apply Z.lt_le_incl, pow2_pos; lia]. }
  split; [assumption|]. split; [split|].
  - apply half_even_ge; lia.
  - apply half_even_le; [assumption|]. lia.
  - destruct L as [L|L]; [left; assumption | right].
    apply half_even_ge; [assumption|]. lia.
Qed.

Lemma pack_cases s M E :
  -1074 <= E <= 971 -> 0 <= M <= 2 ^ 53 -> (E = -1074 \/ 2 ^ 52 <= M) ->
  (pack s M E = S754_infinity s /\ M = 2 ^ 53 /\ E = 971) \/
  (fin (pack s M E) = true /\ valid_binary (pack s M E) = true /\
   scaled (pack s M E) = (if s then - (M * 2 ^ (E - emin)) else M * 2 ^ (E - emin)) /\
   (M = 2 ^ 53 -> E < 971)).
Proof.
  intros HE HM HL. unfold pack.
  destruct (Z.leb_spec M 0) as [Z0|P].
  - right. assert (M = 0) by lia. subst M. repeat split; try reflexivity; try (destruct s; reflexivity).
    intros H; discriminate H.
  - change (2 ^ prec) with (2 ^ 53). change (emax - prec) with 971. change (prec - 1) with 52.
    destruct (Z.eqb_spec M (2 ^ 53)) as [EM|NM].
    + destruct (Z.leb_spec (E + 1) 971) as [LE|GT].
      * right. split; [reflexivity|]. split; [|split; [|lia]].
        -- cbn [valid_binary]. apply bounded_spec. rewrite Z2Pos.id by (apply pow2_pos; lia).
           split; [lia|]. split; [apply Z.pow_lt_mono_r; lia | right; lia].
        -- cbn [scaled]. rewrite Z2Pos.id by (apply pow2_pos; lia). subst M.
           change emin with (-1074).
           replace (E + 1 - -1074) with (1 + (E - -1074)) by lia.
           rewrite (Z.pow_add_r 2 1) by lia. change (2 ^ 53) with (2 ^ 52 * 2 ^ 1).
           destruct s; ring.
      * left. repeat split; [assumption | lia].
    + destruct (Z.leb_spec E 971) as [LE|GT]; [|lia].
      right. split; [reflexivity|]. split; [|split; [|contradiction]].
      * cbn [valid_binary]. apply bounded_spec. rewrite Z2Pos.id by lia.
        split; [lia|]. split; [lia | assumption].
      * cbn [scaled]. rewrite Z2Pos.id by lia. reflexivity.
Qed.

Lemma RN_unfold s a b :
  RN s a b =
  if a <=? 0 then S754_zero s
  else if b * 2 ^ 1024 <=? a then S754_infinity s
  else pack s (half_even (a * 2 ^ (971 - cexp a b)) (b * 2 ^ 971)) (cexp a b).
Proof. reflexivity. Qed.

Lemma RN_valid s a b : 0 < b -> valid_binary (RN s a b) = true.
Proof.
  intros Hb. rewrite RN_unfold.
  destruct (Z.leb_spec a 0); [reflexivity|].
  destruct (Z.leb_spec (b * 2 ^ 1024) a); [reflexivity|].
  destruct (RN_mantissa a b) as (HE & HM & HL); try lia.
  destruct (pack_cases s _ _ HE HM HL) as [(-> & _)|(_ & V & _)]; [reflexivity | exact V].
Qed.

Lemma RN_not_nan s a b : 0 < b -> RN s a b <> S754_nan.
Proof.
  intros Hb. rewrite RN_unfold.
  destruct (Z.leb_spec a 0); [discriminate|].
  destruct (Z.leb_spec (b * 2 ^ 1024) a); [discriminate|].
  destruct (RN_mantissa a b) as (HE & HM & HL); try lia.
  destruct (pack_cases s _ _ HE HM HL) as [(-> & _)|(F & _)]; [discriminate|].
  intros E. rewrite E in F. discriminate.
Qed.

(** The results of [RN false]: an infinity, or a value that [scaled] reads. *)
Lemma RN_cases a b :
  0 < b ->
  RN false a b = S754_infinity false \/
  (fin (RN false a b) = true /\ valid_binary (RN false a b) = true /\ 0 <= scaled (RN false a b)).
Proof.
  intros Hb. rewrite RN_unfold.
  destruct (Z.leb_spec a 0); [right; repeat split; simpl; lia|].
  destruct (Z.leb_spec (b * 2 ^ 1024) a); [left; reflexivity|].
  destruct (RN_mantissa a b) as (HE & HM & HL); try lia.
  destruct (pack_cases false _ _ HE HM HL) as [(-> & _)|(F & V & S & _)]; [left; reflexivity | right].
  repeat split; try assumption. rewrite S.
  apply Z.mul_nonneg_nonneg; [lia|]. change emin with (-1074). apply Z.lt_le_incl, pow2_pos. lia.
Qed.

Lemma SFleb_scaled x y :
  valid_binary x = true -> valid_binary y = true -> fin x = true -> fin y = true ->
  SFleb x y = (scaled x <=? scaled y).
Proof.
  intros Vx Vy Fx Fy. unfold SFleb. rewrite SFcompare_scaled by assumption.
  unfold Z.leb. destruct (scaled x ?= scaled y); reflexivity.
Qed.

Lemma SFleb_infinity x : x <> S754_nan -> SFleb x (S754_infinity false) = true.
Proof. destruct x as [s|s| |s m e]; try reflexivity; try (destruct s; reflexivity). congruence. Qed.

Lemma RN_mono a1 a2 b :
  0 < b -> a1 <= a2 -> SFleb (RN false a1 b) (RN false a2 b) = true.
Proof.
  intros Hb Hle.
  destruct (Z_le_gt_dec (b * 2 ^ 1024) a2) as [Big2|Small2].
  { assert (R2 : RN false a2 b = S754_infinity false).
    { rewrite RN_unfold. destruct (Z.leb_spec a2 0).
      - assert (0 < b * 2 ^ 1024) by (apply Z.mul_pos_pos; [lia | apply pow2_pos; lia]). lia.
      - destruct (Z.leb_spec (b * 2 ^ 1024) a2); [reflexivity | lia]. }
    rewrite R2. apply SFleb_infinity. apply RN_not_nan. assumption. }
  destruct (Z_le_gt_dec a1 0) as [Z1|P1].
  { assert (R1 : RN false a1 b = S754_zero false).
    { rewrite RN_unfold. destruct (Z.leb_spec a1 0); [reflexivity | lia]. }
    rewrite R1. destruct (RN_cases a2 b Hb) as [->|(F & V & S)]; [reflexivity|].
    rewrite SFleb_scaled by (assumption || reflexivity). apply Z.leb_le. exact S. }
  rewrite (RN_unfold false a1), (RN_unfold false a2).
  destruct (Z.leb_spec a1 0); [lia|]. destruct (Z.leb_spec a2 0); [lia|].
  destruct (Z.leb_spec (b * 2 ^ 1024) a1); [lia|].
  destruct (Z.leb_spec (b * 2 ^ 1024) a2); [lia|].
  destruct (RN_mantissa a1 b) as (HE1 & HM1 & HL1); try lia.
  destruct (RN_mantissa a2 b) as (HE2 & HM2 & HL2); try lia.
  pose proof (cexp_mono a1 a2 b Hb ltac:(lia) Hle ltac:(lia)) as HEE.
  assert (Hden : 0 < b * 2 ^ 971) by (apply Z.mul_pos_pos; [lia | apply pow2_pos; lia]).
  assert (HMM : cexp a1 b = cexp a2 b ->
                half_even (a1 * 2 ^ (971 - cexp a1 b)) (b * 2 ^ 971) <=
                half_even (a2 * 2 ^ (971 - cexp a2 b)) (b * 2 ^ 971)).
  { intros EE. rewrite EE. apply half_even_mono; [assumption|].
    apply Z.mul_le_mono_nonneg_r; [apply Z.lt_le_incl, pow2_pos; lia | assumption]. }
  cbv zeta in *.
  set (E1 := cexp a1 b) in *. set (E2 := cexp a2 b) in *.
  set (M1 := half_even _ _) in *. set (M2 := half_even (a2 * _) _) in *.
  assert (Hval : M1 * 2 ^ (E1 - emin) <= M2 * 2 ^ (E2 - emin)).
  { change emin with (-1074). destruct (Z.eq_dec E1 E2) as [EE|NE].
    - rewrite <- EE. apply Z.mul_le_mono_nonneg_r; [apply Z.lt_le_incl, pow2_pos; lia | auto].
    - destruct HL2 as [HL2|HL2]; [lia|].
      apply Z.le_trans with (2 ^ 53 * 2 ^ (E1 - -1074)).
      + apply Z.mul_le_mono_nonneg_r; [apply Z.lt_le_incl, pow2_pos; lia | lia].
      + apply Z.le_trans with (2 ^ 52 * 2 ^ (E2 - -1074)).
        * rewrite <- !Z.pow_add_r by lia. apply pow2_le_mono. lia.
        * apply Z.mul_le_mono_nonneg_r; [apply Z.lt_le_incl, pow2_pos; lia | assumption]. }
  destruct (pack_cases false M2 E2 HE2 HM2 HL2) as [(-> & _)|(F2 & V2 & S2 & N2)].
  { apply SFleb_infinity.
    destruct (pack_cases false M1 E1 HE1 HM1 HL1) as [(-> & _)|(F1 & _)]; [discriminate|].
    intros E. rewrite E in F1. discriminate. }
  destruct (pack_cases false M1 E1 HE1 HM1 HL1) as [(_ & I1 & I2)|(F1 & V1 & S1 & N1)].
  { exfalso. assert (E2 = 971) by lia. assert (M2 = 2 ^ 53) by (specialize (HMM ltac:(lia)); lia). lia. }
  rewrite SFleb_scaled by assumption. apply Z.leb_le. rewrite S1, S2. exact Hval.
Qed.

(** [SpecFloat]'s shifts and its rounding of an exact product *)
Lemma shr_1_spec m r s :
  0 <= m -> shr_1 (Build_shr_record m r s) = Build_shr_record (m / 2) (Z.odd m) (r || s).
Proof.
  intros Hm. rewrite <- Z.div2_div.
  destruct m as [|[p|p|]|p]; try reflexivity. lia.
Qed.

Lemma iter_pos_comm {A : Type} (f : A -> A) p x :
  iter_pos f p (f x) = f (iter_pos f p x).
Proof.
  revert x. induction p as [p IH|p IH|]; intros x; simpl.
  - rewrite !IH. reflexivity.
  - rewrite !IH. reflexivity.
  - reflexivity.
Qed.

Lemma iter_pos_succ {A : Type} (f : A -> A) p x :
  iter_pos f (Pos.succ p) x = f (iter_pos f p x).
Proof.
  revert x. induction p as [p IH|p IH|]; intros x; simpl.
  - rewrite !IH. rewrite !iter_pos_comm. reflexivity.
  - rewrite !iter_pos_comm. reflexivity.
  - reflexivity.
Qed.

Lemma mod_pow2_succ m k :
  0 <= k -> m mod 2 ^ (k + 1) = m mod 2 ^ k + 2 ^ k * ((m / 2 ^ k) mod 2).
Proof.
  intros Hk. rewrite Z.pow_add_r by lia. change (2 ^ 1) with 2.
  apply Z.rem_mul_r; [apply Z.pow_nonzero; lia | lia].
Qed.

Lemma odd_mod2 x : Z.odd x = (x mod 2 =? 1).
Proof.
  rewrite Zmod_odd. destruct (Z.odd x); reflexivity.
Qed.

Lemma iter_pos_shr m p :
  0 <= m ->
  iter_pos shr_1 p (Build_shr_record m false false) =
  Build_shr_record (m / 2 ^ Z.pos p) (Z.odd (m / 2 ^ (Z.pos p - 1)))
                   (negb (m mod 2 ^ (Z.pos p - 1) =? 0)).
Proof.
  intros Hm. induction p as [|p IH] using Pos.peano_ind.
  - cbn [iter_pos]. rewrite shr_1_spec by assumption.
    change (Z.pos 1 - 1) with 0. change (2 ^ 0) with 1. change (2 ^ 1) with 2.
    rewrite Z.div_1_r, Z.mod_1_r. reflexivity.
  - rewrite iter_pos_succ, IH.
    rewrite shr_1_spec by (apply Z.div_pos; [assumption | apply pow2_pos; lia]).
    rewrite Pos2Z.inj_succ.
    replace (Z.succ (Z.pos p) - 1) with (Z.pos p) by lia.
    f_equal.
    + rewrite Z.div_div by (try apply pow2_pos; lia).
      replace (Z.succ (Z.pos p)) with (Z.pos p + 1) by lia.
      rewrite Z.pow_add_r by lia. reflexivity.
    + replace (Z.pos p) with ((Z.pos p - 1) + 1) at 3 by lia.
      rewrite mod_pow2_succ by lia.
      pose proof (Z.mod_pos_bound m (2 ^ (Z.pos p - 1)) ltac:(apply pow2_pos; lia)) as B.
      pose proof (pow2_pos (Z.pos p - 1) ltac:(lia)) as P.
      rewrite odd_mod2.
      pose proof (Z.mod_pos_bound (m / 2 ^ (Z.pos p - 1)) 2 ltac:(lia)) as B2.
      set (lo := m mod 2 ^ (Z.pos p - 1)) in *. set (bit := (m / 2 ^ (Z.pos p - 1)) mod 2) in *.
      set (h := 2 ^ (Z.pos p - 1)) in *.
      destruct (Z.eqb_spec bit 1) as [B1|B1]; destruct (Z.eqb_spec lo 0) as [L0|L0]; simpl;
        symmetry; try (apply negb_true_iff); try (apply negb_false_iff);
        try (apply Z.eqb_neq); try (apply Z.eqb_eq); nia.
Qed.

Lemma half_even_1 m : half_even m 1 = m.
Proof. rewrite <- (Z.mul_1_r m) at 1. apply half_even_exact. lia. Qed.

Lemma shr_round m e n :
  0 <= m -> 0 <= n ->
  let '(mrs, e') := shr (Build_shr_record m false false) e n in
  e' = e + n /\
  round_nearest_even (shr_m mrs) (loc_of_shr_record mrs) = half_even m (2 ^ n).
Proof.
  intros Hm Hn. destruct n as [|p|p]; [| |lia].
  - cbn [shr]. split; [lia|]. cbn. change (2 ^ 0) with 1. rewrite half_even_1. reflexivity.
  - cbn [shr]. rewrite iter_pos_shr by assumption. split; [reflexivity|].
    cbn [shr_m]. unfold half_even.
    set (k := Z.pos p - 1). assert (Hk : 0 <= k) by lia.
    replace (Z.pos p) with (k + 1) by lia. clearbody k.
    set (q := m / 2 ^ (k + 1)).
    rewrite mod_pow2_succ by lia.
    rewrite Z.pow_add_r by lia. change (2 ^ 1) with 2.
    pose proof (Z.mod_pos_bound m (2 ^ k) ltac:(apply pow2_pos; lia)) as B.
    pose proof (pow2_pos k ltac:(lia)) as P.
    rewrite odd_mod2.
    pose proof (Z.mod_pos_bound (m / 2 ^ k) 2 ltac:(lia)) as B2.
    set (lo := m mod 2 ^ k) in *. set (bit := (m / 2 ^ k) mod 2) in *.
    set (h := 2 ^ k) in *.
    destruct (Z.eqb_spec bit 1) as [B1|B1]; destruct (Z.eqb_spec lo 0) as [L0|L0];
      cbn [negb loc_of_shr_record round_nearest_even];
      destruct (Z.compare_spec (2 * (lo + h * bit)) (h * 2)); try reflexivity; nia.
Qed.

Lemma round_tail s M E :
  -1074 <= E -> 0 <= M <= 2 ^ 53 -> (E = -1074 \/ 2 ^ 52 <= M) ->
  (let '(mrs, e) := shr_fexp prec emax M E loc_Exact in
   match shr_m mrs with
   | Z0 => S754_zero s
   | Z.pos m => if e <=? emax - prec then S754_finite s m e else S754_infinity s
   | Z.neg _ => S754_nan
   end) = pack s M E.
Proof.
  intros HE HM HL. unfold shr_fexp, pack. rewrite fexp_eq. cbn [shr_record_of_loc].
  change (2 ^ prec) with (2 ^ 53). change (prec - 1) with 52.
  destruct M as [|p|p]; [| |lia].
  - cbn [Zdigits2]. replace (Z.max (0 + E - 53) (-1074) - E) with (- (E - Z.max (E - 53) (-1074))) by lia.
    destruct (E - Z.max (E - 53) (-1074)) eqn:D; try lia; reflexivity.
  - cbn [Zdigits2]. destruct (Z.leb_spec (Z.pos p) 0); [lia|].
    destruct (Z.eqb_spec (Z.pos p) (2 ^ 53)) as [EM|NM].
    + assert (Hd : Z.pos (digits2_pos p) = 54) by (rewrite digits2_log2, EM, Z.log2_pow2; lia).
      rewrite Hd. replace (Z.max (54 + E - 53) (-1074) - E) with 1 by lia.
      cbn [shr iter_pos]. rewrite shr_1_spec by lia. cbn [shr_m]. rewrite EM.
      change (2 ^ 53 / 2) with (Z.pos (Z.to_pos (2 ^ 52))). reflexivity.
    + assert (Z.pos p < 2 ^ 53) by lia.
      pose proof (digits_le_53 p H0) as D1.
      assert (D2 : E = -1074 \/ Z.pos (digits2_pos p) = 53).
      { destruct HL as [HL|HL]; [left; assumption | right].
        pose proof (digits_ge_53 p HL). lia. }
      replace (Z.max (Z.pos (digits2_pos p) + E - 53) (-1074) - E) with 0 by lia.
      reflexivity.
Qed.

Lemma binary_round_aux_exact s m e :
  let E := fexp prec emax (Z.pos (digits2_pos m) + e) in
  e <= E ->
  binary_round_aux prec emax s (Z.pos m) e loc_Exact =
  pack s (half_even (Z.pos m) (2 ^ (E - e))) E.
Proof.
  intros E HeE. unfold binary_round_aux.
  unfold shr_fexp at 1. cbn [shr_record_of_loc Zdigits2]. fold E.
  pose proof (shr_round (Z.pos m) e (E - e) ltac:(lia) ltac:(lia)) as Hshr.
  destruct (shr (Build_shr_record (Z.pos m) false false) e (E - e)) as [mrs e'].
  destruct Hshr as [He' HM]. rewrite HM. replace e' with E by lia.
  apply round_tail.
  - unfold E. rewrite fexp_eq. lia.
  - pose proof (digits2_log2 m) as Hd.
    destruct (Z.log2_spec (Z.pos m) ltac:(lia)) as [L U].
    assert (0 < 2 ^ (E - e)) by (apply pow2_pos; lia).
    split.
    + apply half_even_ge; lia.
    + apply half_even_le; [assumption|].
      rewrite <- Z.pow_add_r by lia.
      apply Z.lt_le_incl. eapply Z.lt_le_trans; [exact U|].
      apply pow2_le_mono. pose proof (Z.log2_nonneg (Z.pos m)).
      unfold E in *. rewrite fexp_eq in *. lia.
  - destruct (Z.eq_dec E (-1074)) as [|NE]; [left; assumption | right].
    pose proof (digits2_log2 m) as Hd.
    destruct (Z.log2_spec (Z.pos m) ltac:(lia)) as [L U].
    assert (0 < 2 ^ (E - e)) by (apply pow2_pos; lia).
    apply half_even_ge; [assumption|].
    rewrite <- Z.pow_add_r by lia.
    eapply Z.le_trans; [|exact L].
    apply pow2_le_mono. unfold E in *. rewrite fexp_eq in *. lia.
Qed.

Lemma mag_dyadic m k j :
  0 <= k -> 0 <= j -> Z.log2 (Z.pos m) + k - j <= 1100 ->
  mag (Z.pos m * 2 ^ k) (2 ^ j) = Z.pos (digits2_pos m) + (k - j).
Proof.
  intros Hk Hj Hl. unfold mag.
  rewrite Z.log2_mul_pow2, Z.log2_pow2 by lia.
  rewrite digits2_log2.
  destruct (Z.log2_spec (Z.pos m) ltac:(lia)) as [L U].
  pose proof (Z.log2_nonneg (Z.pos m)) as N.
  set (l := Z.log2 (Z.pos m)) in *.
  destruct (Z.leb_spec (2 ^ j * 2 ^ 1100) (Z.pos m * 2 ^ k * 2 ^ (1100 - (k + l - j)))) as [T|T]; [lia|].
  exfalso. rewrite <- Z.mul_assoc, <- !Z.pow_add_r in T by lia.
  replace (k + (1100 - (k + l - j))) with (j + 1100 - l) in T by lia.
  assert (2 ^ l * 2 ^ (j + 1100 - l) <= Z.pos m * 2 ^ (j + 1100 - l)).
  { apply Z.mul_le_mono_nonneg_r; [apply Z.lt_le_incl, pow2_pos; lia | assumption]. }
  rewrite <- Z.pow_add_r in H by lia.
  replace (l + (j + 1100 - l)) with (j + 1100) in H by lia. lia.
Qed.

Lemma RN_dyadic s m k j :
  0 <= k -> 0 <= j ->
  let e := k - j in
  let E := fexp prec emax (Z.pos (digits2_pos m) + e) in
  e <= E ->
  RN s (Z.pos m * 2 ^ k) (2 ^ j) = pack s (half_even (Z.pos m) (2 ^ (E - e))) E.
Proof.
  intros Hk Hj e E HeE. rewrite RN_unfold.
  pose proof (digits2_log2 m) as Hd.
  destruct (Z.log2_spec (Z.pos m) ltac:(lia)) as [L U].
  pose proof (Z.log2_nonneg (Z.pos m)) as N.
  assert (HEd : E = Z.max (Z.pos (digits2_pos m) + e - 53) (-1074)) by (unfold E; apply fexp_eq).
  assert (P : 0 < 2 ^ (E - e)) by (apply pow2_pos; lia).
  assert (Pk : 0 < 2 ^ k) by (apply pow2_pos; lia).
  assert (HM : 0 <= half_even (Z.pos m) (2 ^ (E - e)) <= 2 ^ 53).
  { split; [apply half_even_ge; lia|]. apply half_even_le; [assumption|].
    rewrite <- Z.pow_add_r by lia. apply Z.lt_le_incl. eapply Z.lt_le_trans; [exact U|].
    apply pow2_le_mono. lia. }
  assert (HL : E = -1074 \/ 2 ^ 52 <= half_even (Z.pos m) (2 ^ (E - e))).
  { destruct (Z.eq_dec E (-1074)) as [|NE]; [left; assumption | right].
    apply half_even_ge; [assumption|]. rewrite <- Z.pow_add_r by lia.
    eapply Z.le_trans; [|exact L]. apply pow2_le_mono. lia. }
  destruct (Z.leb_spec (Z.pos m * 2 ^ k) 0) as [Hz|_]; [nia|].
  destruct (Z.leb_spec (2 ^ j * 2 ^ 1024) (Z.pos m * 2 ^ k)) as [Big|Small].
  - (* overflow *)
    assert (2 ^ (j + 1024) < 2 ^ (Z.succ (Z.log2 (Z.pos m)) + k)).
    { rewrite Z.pow_add_r by lia. eapply Z.le_lt_trans; [exact Big|].
      rewrite (Z.pow_add_r 2 (Z.succ _)) by lia. apply Z.mul_lt_mono_pos_r; assumption. }
    apply Z.pow_lt_mono_r_iff in H; try lia.
    assert (972 <= E) by lia.
    unfold pack. change (2 ^ prec) with (2 ^ 53). change (emax - prec) with 971.
    destruct HL as [HL|HL]; [lia|].
    assert (0 < 2 ^ 52) by (apply pow2_pos; lia).
    destruct (Z.leb_spec (half_even (Z.pos m) (2 ^ (E - e))) 0); [lia|].
    destruct (Z.eqb_spec (half_even (Z.pos m) (2 ^ (E - e))) (2 ^ 53)).
    + destruct (Z.leb_spec (E + 1) 971); [lia | reflexivity].
    + destruct (Z.leb_spec E 971); [lia | reflexivity].
  - assert (Hl : Z.log2 (Z.pos m) + k - j <= 1100).
    { assert (2 ^ (Z.log2 (Z.pos m) + k) < 2 ^ (j + 1024)).
      { rewrite !Z.pow_add_r by lia. eapply Z.le_lt_trans; [|exact Small].
        apply Z.mul_le_mono_nonneg_r; lia. }
      apply Z.pow_lt_mono_r_iff in H; lia. }
    unfold cexp. rewrite mag_dyadic by assumption. fold e. fold E.
    assert (E <= 971).
    { assert (2 ^ (Z.log2 (Z.pos m) + k) < 2 ^ (j + 1024)).
      { rewrite !Z.pow_add_r by lia. eapply Z.le_lt_trans; [|exact Small].
        apply Z.mul_le_mono_nonneg_r; lia. }
      apply Z.pow_lt_mono_r_iff in H; lia. }
    f_equal.
    replace (Z.pos m * 2 ^ k * 2 ^ (971 - E)) with (2 ^ (k + 971 - E) * Z.pos m).
    2:{ rewrite <- Z.mul_assoc, <- Z.pow_add_r by lia.
        replace (k + (971 - E)) with (k + 971 - E) by lia. ring. }
    replace (2 ^ j * 2 ^ 971) with (2 ^ (k + 971 - E) * 2 ^ (E - e)).
    2:{ rewrite <- !Z.pow_add_r by lia. f_equal. unfold e. lia. }
    apply half_even_scale; [apply pow2_pos; lia | assumption].
Qed.

Lemma RN_exact s m e j :
  bounded prec emax m e = true -> 0 <= j -> 0 <= e + j ->
  RN s (Z.pos m * 2 ^ (e + j)) (2 ^ j) = S754_finite s m e.
Proof.
  intros V Hj Hej. pose proof V as V'. apply bounded_spec in V'. destruct V' as (He & Hm & Hn).
  assert (Hc : fexp prec emax (Z.pos (digits2_pos m) + e) = e).
  { unfold bounded, canonical_mantissa in V. apply andb_true_iff in V. destruct V as [V _].
    apply Z.eqb_eq in V. exact V. }
  rewrite RN_dyadic by (try lia; replace (e + j - j) with e by lia; rewrite Hc; lia).
  replace (e + j - j) with e by lia. rewrite Hc.
  replace (e - e) with 0 by lia. change (2 ^ 0) with 1. rewrite half_even_1.
  unfold pack. change (2 ^ prec) with (2 ^ 53). change (emax - prec) with 971.
  destruct (Z.leb_spec (Z.pos m) 0); [lia|].
  destruct (Z.eqb_spec (Z.pos m) (2 ^ 53)); [lia|].
  destruct (Z.leb_spec e 971); [reflexivity | lia].
Qed.

Lemma mul_cexp_le mx ex my ey :
  bounded prec emax mx ex = true -> bounded prec emax my ey = true ->
  ex + ey <= fexp prec emax (Z.pos (digits2_pos (mx * my)) + (ex + ey)).
Proof.
  rewrite !bounded_spec, fexp_eq. intros (Bx & Ux & Lx) (By & Uy & Ly).
  assert (P52 : 0 < 2 ^ 52) by (apply pow2_pos; lia).
  assert (H1 : Z.pos (mx * my) = Z.pos mx * Z.pos my) by reflexivity.
  destruct (Z_le_gt_dec (ex + ey) (-1074)) as [|Hgt]; [lia|].
  assert (Hd : 53 <= Z.pos (digits2_pos (mx * my))).
  { apply digits_ge_53. rewrite H1. destruct Lx as [Lx|Lx], Ly as [Ly|Ly]; try lia; nia. }
  lia.
Qed.

Lemma abs_scaled_finite s m e :
  0 <= e - emin -> Z.abs (scaled (S754_finite s m e)) = Z.pos m * 2 ^ (e - emin).
Proof.
  intros H. cbn [scaled].
  assert (0 < Z.pos m * 2 ^ (e - emin)) by (apply Z.mul_pos_pos; [lia | apply pow2_pos; lia]).
  destruct s; lia.
Qed.

Lemma SFmul_RN x y :
  valid_binary x = true -> valid_binary y = true -> fin x = true -> fin y = true ->
  SFmul prec emax x y =
  RN (xorb (sign_of x) (sign_of y)) (Z.abs (scaled x) * Z.abs (scaled y)) (2 ^ 2148).
Proof.
  destruct x as [sx| | |sx mx ex], y as [sy| | |sy my ey]; try discriminate;
    intros Vx Vy _ _; cbn [SFmul sign_of]; try reflexivity.
  - rewrite RN_unfold. cbn [scaled]. change (Z.abs 0) with 0. rewrite Z.mul_0_r. reflexivity.
  - cbn [valid_binary] in Vx, Vy.
    pose proof (mul_cexp_le mx ex my ey Vx Vy) as Hc.
    pose proof Vx as Bx. pose proof Vy as By. apply bounded_spec in Bx, By.
    rewrite binary_round_aux_exact by exact Hc.
    rewrite !abs_scaled_finite by (change emin with (-1074); lia).
    change emin with (-1074).
    replace (Z.pos mx * 2 ^ (ex - -1074) * (Z.pos my * 2 ^ (ey - -1074)))
      with (Z.pos (mx * my) * 2 ^ (ex + ey + 2148)).
    2:{ replace (ex + ey + 2148) with ((ex - -1074) + (ey - -1074)) by lia.
        rewrite Z.pow_add_r by lia. rewrite Pos2Z.inj_mul. ring. }
    rewrite RN_dyadic; try lia.
    + replace (ex + ey + 2148 - 2148) with (ex + ey) by lia. reflexivity.
    + replace (ex + ey + 2148 - 2148) with (ex + ey) by lia. exact Hc.
Qed.

(** Primitive floats *)

Lemma pack_shape s M E :
  pack s M E = S754_zero s \/ pack s M E = S754_infinity s \/
  exists m e, pack s M E = S754_finite s m e.
Proof.
  unfold pack. destruct (M <=? 0); [left; reflexivity|].
  destruct (M =? 2 ^ prec).
  - destruct (E + 1 <=? emax - prec); [right; right; eauto | right; left; reflexivity].
  - destruct (E <=? emax - prec); [right; right; eauto | right; left; reflexivity].
Qed.

Lemma RN_shape s a b :
  RN s a b = S754_zero s \/ RN s a b = S754_infinity s \/
  exists m e, RN s a b = S754_finite s m e.
Proof.
  rewrite RN_unfold. destruct (a <=? 0); [left; reflexivity|].
  destruct (b * 2 ^ 1024 <=? a); [right; left; reflexivity|]. apply pack_shape.
Qed.

Lemma Prim2SF_RN s a b : 0 < b -> Prim2SF (SF2Prim (RN s a b)) = RN s a b.
Proof. intros Hb. apply Prim2SF_SF2Prim. now apply RN_valid. Qed.

Lemma nonneg_RN a b : 0 < b -> nonneg (SF2Prim (RN false a b)) = true.
Proof.
  intros Hb. unfold nonneg. rewrite Prim2SF_RN by assumption.
  destruct (RN_shape false a b) as [->|[->|(m & e & ->)]]; reflexivity.
Qed.

Lemma nonneg_mul x y : nonneg x = true -> pos_finite y = true -> nonneg (x * y) = true.
Proof.
  unfold nonneg, pos_finite. rewrite mul_spec.
  pose proof (Prim2SF_valid x) as Vx. pose proof (Prim2SF_valid y) as Vy.
  destruct (Prim2SF x) as [sx|sx| |sx mx ex], (Prim2SF y) as [sy|sy| |[|] my ey];
    try discriminate; destruct sx; try discriminate; intros _ _; try reflexivity.
  unfold SF64mul. rewrite SFmul_RN by (assumption || reflexivity). cbn [sign_of xorb].
  destruct (RN_shape false (Z.abs (scaled (S754_finite false mx ex)) *
                            Z.abs (scaled (S754_finite false my ey))) (2 ^ 2148))
    as [->|[->|(m & e & ->)]]; reflexivity.
Qed.

Lemma scaled_pos_finite m e :
  bounded prec emax m e = true ->
  Z.abs (scaled (S754_finite false m e)) = scaled (S754_finite false m e) /\
  0 < scaled (S754_finite false m e).
Proof.
  intros B. apply bounded_spec in B. cbn [scaled]. change emin with (-1074).
  assert (0 < Z.pos m * 2 ^ (e - -1074)) by (apply Z.mul_pos_pos; [lia | apply pow2_pos; lia]).
  lia.
Qed.

Lemma mul_mono b x y :
  nonneg b = true -> pos_finite x = true -> pos_finite y = true ->
  (x <=? y)%float = true -> (b * x <=? b * y)%float = true.
Proof.
  unfold nonneg, pos_finite. rewrite !leb_spec, !mul_spec.
  pose proof (Prim2SF_valid b) as Vb. pose proof (Prim2SF_valid x) as Vx.
  pose proof (Prim2SF_valid y) as Vy.
  destruct (Prim2SF b) as [sb|sb| |sb mb eb]; try discriminate;
    destruct sb; try discriminate; intros _;
    destruct (Prim2SF x) as [sx|sx| |[|] mx ex]; try discriminate; intros _;
    destruct (Prim2SF y) as [sy|sy| |[|] my ey]; try discriminate; intros _;
    try reflexivity.
  intros Hle. unfold SF64mul. rewrite !SFmul_RN by (assumption || reflexivity).
  cbn [sign_of xorb]. apply RN_mono; [apply pow2_pos; lia|].
  rewrite SFleb_scaled in Hle by (assumption || reflexivity). apply Z.leb_le in Hle.
  destruct (scaled_pos_finite mx ex Vx) as [-> Px].
  destruct (scaled_pos_finite my ey Vy) as [-> Py].
  apply Z.mul_le_mono_nonneg_l; [apply Z.abs_nonneg | assumption].
Qed.

Lemma mul_1_r x : (x * 1)%float = x.
Proof.
  apply Prim2SF_inj. rewrite mul_spec.
  pose proof (Prim2SF_valid x) as Vx.
  change (Prim2SF 1) with (S754_finite false 4503599627370496 (-52)).
  unfold SF64mul.
  destruct (Prim2SF x) as [sx|sx| |sx mx ex];
    try (cbn [SFmul]; rewrite ?xorb_false_r; reflexivity).
  rewrite SFmul_RN by (assumption || reflexivity).
  cbn [sign_of]. rewrite xorb_false_r.
  cbn [valid_binary] in Vx. pose proof Vx as Bx. apply bounded_spec in Bx.
  rewrite abs_scaled_finite by (change emin with (-1074); lia).
  change (Z.abs (scaled (S754_finite false 4503599627370496 (-52)))) with (2 ^ 1074).
  change emin with (-1074).
  rewrite <- Z.mul_assoc, <- Z.pow_add_r by lia.
  replace (ex - -1074 + 1074) with (ex + 2148) by lia.
  apply RN_exact; [assumption | lia | lia].
Qed.

Lemma round_unfold f n :
  Binary64.round f n =
  match Prim2SF f with
  | S754_finite s m e =>
      SF2Prim (RN s (half_even (Z.abs (scaled (S754_finite s m e)) * 10 ^ Z.of_nat n) (2 ^ 1074))
                 (10 ^ Z.of_nat n))
  | _ => f
  end.
Proof. reflexivity. Qed.

Lemma pow10_pos n : 0 < 10 ^ Z.of_nat n.
Proof. apply Z.pow_pos_nonneg; lia. Qed.

Lemma nonneg_round f n : nonneg f = true -> nonneg (Binary64.round f n) = true.
Proof.
  intros H. rewrite round_unfold. unfold nonneg in H.
  destruct (Prim2SF f) as [s|s| |s m e] eqn:E; try discriminate;
    try (unfold nonneg; rewrite E; exact H).
  destruct s; [discriminate|]. apply nonneg_RN. apply pow10_pos.
Qed.

Lemma SFleb_zero_RN a b : 0 < b -> SFleb (S754_zero false) (RN false a b) = true.
Proof.
  intros Hb. destruct (RN_cases a b Hb) as [->|(F & V & S)]; [reflexivity|].
  rewrite SFleb_scaled by (assumption || reflexivity). apply Z.leb_le. exact S.
Qed.

Lemma round_mono x y n :
  nonneg x = true -> nonneg y = true -> (x <=? y)%float = true ->
  (Binary64.round x n <=? Binary64.round y n)%float = true.
Proof.
  unfold nonneg. intros Hx Hy Hle. rewrite leb_spec in *. rewrite !round_unfold.
  pose proof (Prim2SF_valid x) as Vx. pose proof (Prim2SF_valid y) as Vy.
  pose proof (pow10_pos n) as Pp.
  destruct (Prim2SF x) as [sx|sx| |sx mx ex] eqn:Ex; try discriminate;
    destruct sx; try discriminate;
    destruct (Prim2SF y) as [sy|sy| |sy my ey] eqn:Ey; try discriminate;
    destruct sy; try discriminate;
    rewrite ?Ex, ?Ey, ?Prim2SF_RN by assumption; try reflexivity.
  - apply SFleb_zero_RN; assumption.
  - apply SFleb_infinity. apply RN_not_nan. assumption.
  - apply RN_mono; [assumption|].
    apply half_even_mono; [apply pow2_pos; lia|].
    apply Z.mul_le_mono_nonneg_r; [lia|].
    rewrite SFleb_scaled in Hle by (assumption || reflexivity). apply Z.leb_le in Hle.
    destruct (scaled_pos_finite mx ex Vx) as [-> Px].
    destruct (scaled_pos_finite my ey Vy) as [-> Py]. exact Hle.
Qed.

(** Comparing a float with an integer that a float holds exactly *)
Lemma compare_Z_float f z zf :
  fin (Prim2SF zf) = true -> scaled (Prim2SF zf) = z * 2 ^ 1074 ->
  compare_Z f z = float_cmp f zf.
Proof.
  intros F S. unfold compare_Z, float_cmp. rewrite compare_spec.
  pose proof (Prim2SF_valid f) as Vf. pose proof (Prim2SF_valid zf) as Vz.
  change (- emin) with 1074. rewrite <- S.
  destruct (Prim2SF f) as [s|s| |s m e] eqn:E.
  - rewrite SFcompare_scaled by (assumption || reflexivity).
    destruct (_ ?= _); reflexivity.
  - destruct (Prim2SF zf) as [sz|sz| |sz mz ez]; try discriminate; destruct s; reflexivity.
  - reflexivity.
  - rewrite SFcompare_scaled by (assumption || reflexivity).
    destruct (_ ?= _); reflexivity.
Qed.

Lemma leb_float_cmp x y : (x <=? y)%float = is_le (float_cmp x y).
Proof.
  unfold float_cmp. rewrite leb_spec, compare_spec. unfold SFleb.
  destruct (SFcompare (Prim2SF x) (Prim2SF y)) as [[| |]|]; reflexivity.
Qed.

Lemma ltb_float_cmp x y : (x <? y)%float = match float_cmp x y with Some Lt => true | _ => false end.
Proof.
  unfold float_cmp. rewrite ltb_spec, compare_spec. unfold SFltb.
  destruct (SFcompare (Prim2SF x) (Prim2SF y)) as [[| |]|]; reflexivity.
Qed.

Lemma float_cmp_antisym x y : float_cmp y x = option_map CompOpp (float_cmp x y).
Proof.
  unfold float_cmp. rewrite !compare_spec.
  pose proof (Prim2SF_valid x) as Vx. pose proof (Prim2SF_valid y) as Vy.
  destruct (Prim2SF x) as [sx|sx| |sx mx ex] eqn:Ex, (Prim2SF y) as [sy|sy| |sy my ey] eqn:Ey;
    try reflexivity;
    try (destruct sx; reflexivity); try (destruct sy; reflexivity);
    try (destruct sx, sy; reflexivity).
  rewrite !SFcompare_scaled by (assumption || reflexivity).
  rewrite (Z.compare_antisym (scaled (S754_finite sx mx ex))).
  destruct (_ ?= _); reflexivity.
Qed.

End Binary64Facts.

Import Binary64 Binary64Facts.

(** Closed facts are decided by evaluation, conjunct by conjunct. *)
Ltac by_evaluation :=
  repeat match goal with |- _ /\ _ => split end; vm_compute; reflexivity.

(** The model of [round], of the conversion of integers and of decimal
    literals, on values with a known result. *)
Example RN_1897_55 : SF2Prim (Binary64.RN false 189755 100) = 1897.55%float.
Proof. vm_compute. reflexivity. Qed.
Example round_2_675 : Binary64.round 2.675 2 = 2.67%float.
Proof. vm_compute. reflexivity. Qed.
Example round_0_125 : Binary64.round 0.125 2 = 0.12%float.
Proof. vm_compute. reflexivity. Qed.
Example round_0_135 : Binary64.round 0.135 2 = 0.14%float.
Proof. vm_compute. reflexivity. Qed.
Example round_1e22 : Binary64.round 1e22 2 = 1e22%float.
Proof. vm_compute. reflexivity. Qed.
Example round_max : Binary64.round 0x1.fffffffffffffp+1023 2 = 0x1.fffffffffffffp+1023%float.
Proof. vm_compute. reflexivity. Qed.
Example round_min : Binary64.round 0x1p-1074 2 = 0%float.
Proof. vm_compute. reflexivity. Qed.
Example round_neg : Binary64.round (-0.001) 2 = (-0)%float.
Proof. vm_compute. reflexivity. Qed.
Example round_0_005 : Binary64.round 0.005 2 = 0.01%float.
Proof. vm_compute. reflexivity. Qed.
Example of_Z_big : Binary64.of_Z (2 ^ 1024 - 2 ^ 970 - 1) = Some 0x1.fffffffffffffp+1023%float.
Proof. vm_compute. reflexivity. Qed.
Example of_Z_over : Binary64.of_Z (2 ^ 1024 - 2 ^ 970) = None.
Proof. vm_compute. reflexivity. Qed.
Example of_Z_53 : Binary64.of_Z (2 ^ 53 + 1) = Some 9007199254740992%float.
Proof. vm_compute. reflexivity. Qed.
(** On integers that a float holds, [hundredths] is the float division by
    100, which IEEE 754 rounds to nearest, ties to even. *)
Example hundredths_division :
  forallb (fun k =>
             let N := 5000 + 37 * Z.of_nat k in
             PrimFloat.Leibniz.eqb (hundredths N)
               (PrimFloat.of_uint63 (Uint63.of_Z N) / 100)%float)
          (seq 0 64) = true.
Proof. vm_compute. reflexivity. Qed.
Example of_Z_53' : Binary64.of_Z (2 ^ 53 + 3) = Some 9007199254740996%float.
Proof. vm_compute. reflexivity. Qed.

(** Equality and hashing of containers. *)
Example py_eq_containers :
  py_eq (PyList [SInt 1]) (PyList [SFloat 1.0]) = true /\
  py_eq (PyTuple [SInt 1; SBool true]) (PyTuple [SFloat 1.0; SInt 1]) = true /\
  py_eq (PySet [SInt 1; SInt 2]) (PySet [SFloat 2.0; SBool true]) = true /\
  py_eq (PyDict [(SInt 1, SInt 2)]) (PyDict [(SBool true, SFloat 2.0)]) = true /\
  py_eq (PyTuple [SInt 1]) (PyList [SInt 1]) = false /\
  py_eq (PyList [SFloat nan]) (PyList [SFloat nan]) = false /\
  py_eq (PyStr "1") (PyInt 1) = false.
Proof. by_evaluation. Qed.

Example dict_contains_unhashable :
  dict_contains [] (PyList []) =
    Raise (TypeError [Text "unhashable type: "; TypeName (PyList [])]) /\
  dict_contains [] (PyTuple [SInt 1; SStr "a"]) = Ok false /\
  dict_contains (TARIFF_RATES TaxiCalculator) (PyStr "бизнес") = Ok true.
Proof. by_evaluation. Qed.

(** ** The operators on the calculator's operands *)

Lemma compare_Z_0 f : compare_Z f 0 = float_cmp f 0.
Proof. apply compare_Z_float; reflexivity. Qed.

Lemma compare_Z_50 f : compare_Z f 50 = float_cmp f 50.
Proof. apply compare_Z_float; vm_compute; reflexivity. Qed.

Lemma py_le_0 d :
  isinstance_int_float d = true -> py_le d (PyInt 0) = Ok (nonpositive d).
Proof.
  destruct d as [|b|z|f|s|xs|xs|xs|xs]; try discriminate; intros _; unfold py_le, py_compare; cbn.
  - destruct b; reflexivity.
  - unfold Z.leb. destruct (z ?= 0); reflexivity.
  - rewrite compare_Z_0, leb_float_cmp. reflexivity.
Qed.

Lemma py_gt_50 F : py_gt (PyInt 50) (PyFloat F) = Ok (F <? 50)%float.
Proof.
  unfold py_gt, py_compare. cbn. rewrite compare_Z_50, ltb_float_cmp.
  destruct (float_cmp F 50) as [[| |]|]; reflexivity.
Qed.

Lemma py_le_50 R : py_le (PyInt 50) (PyFloat R) = Ok (50 <=? R)%float.
Proof.
  unfold py_le, py_compare. cbn. rewrite compare_Z_50, leb_float_cmp.
  rewrite (float_cmp_antisym R 50). reflexivity.
Qed.

Lemma py_le_float x y : py_le (PyFloat x) (PyFloat y) = Ok (x <=? y)%float.
Proof. unfold py_le, py_compare. cbn. rewrite leb_float_cmp. reflexivity. Qed.

Lemma clamp_round_spec F :
  (fare <- py_max (PyFloat F) (PyInt 50) ;; fare <- py_round fare 2 ;; Ok fare) =
  Ok (clamp_round F).
Proof.
  unfold py_max, clamp_round. rewrite py_gt_50. cbn [bind].
  destruct (F <? 50)%float; reflexivity.
Qed.

Lemma result_unit_eta (r : result unit) : raised r = None -> r = Ok tt.
Proof. destruct r as [[]|e]; [reflexivity | discriminate]. Qed.

Lemma validate_distance_raised d :
  raised (validate_distance d) = distance_violation d.
Proof.
  unfold validate_distance, distance_violation.
  destruct (isinstance_int_float d) eqn:T; cbn [negb]; [|reflexivity].
  rewrite py_le_0 by assumption. cbn [bind]. destruct (nonpositive d); reflexivity.
Qed.

Lemma validate_rating_raised r label :
  raised (validate_rating r label) = rating_violation r.
Proof.
  unfold validate_rating, rating_violation, out_of_range.
  destruct r as [|b|z|f|s|xs|xs|xs|xs]; try reflexivity; cbn [isinstance_int negb rating_level].
  - destruct b; reflexivity.
  - unfold py_le, py_compare. cbn [to_num num_cmp bind is_le].
    destruct (Z.leb_spec 1 z) as [L|L]; destruct (Z.leb_spec z 5) as [U|U];
      destruct (Z.compare_spec 1 z); try lia; cbn [bind];
      destruct (Z.compare_spec z 5); try lia; reflexivity.
Qed.

Lemma catalog_get t :
  dict_get (TARIFF_RATES TaxiCalculator) t = option_map PyInt (rate_of t).
Proof.
  destruct t as [|b|z|f|s|xs|xs|xs|xs]; try reflexivity.
  cbn [TaxiCalculator TARIFF_RATES dict_get py_eq scalar_eq rate_of].
  rewrite !(String.eqb_sym s).
  repeat match goal with |- context [String.eqb ?k s] => destruct (String.eqb k s) end;
    reflexivity.
Qed.

Lemma in_catalog_rate t :
  in_catalog t = match rate_of t with Some _ => true | None => false end.
Proof.
  destruct t as [|b|z|f|s|xs|xs|xs|xs]; try reflexivity.
  cbn [in_catalog rate_of existsb].
  repeat match goal with |- context [String.eqb s ?k] => destruct (String.eqb s k) end;
    reflexivity.
Qed.

Lemma rate_of_cases t rate : rate_of t = Some rate -> In rate [100; 150; 200; 300].
Proof.
  destruct t as [|b|z|f|s|xs|xs|xs|xs]; try discriminate. cbn [rate_of].
  repeat match goal with |- context [String.eqb s ?k] => destruct (String.eqb s k) end;
    intros [= <-]; simpl; auto.
Qed.

Lemma py_hash_hashable t : py_hash t = if hashable t then Ok tt else py_hash t.
Proof. destruct t; reflexivity. Qed.

Lemma in_catalog_hashable t : in_catalog t = true -> hashable t = true.
Proof. destruct t as [|b|z|f|s|xs|xs|xs|xs]; (discriminate || reflexivity). Qed.

Lemma catalog_contains t :
  dict_contains (TARIFF_RATES TaxiCalculator) t = (py_hash t ;; Ok (in_catalog t)).
Proof.
  unfold dict_contains. rewrite catalog_get, in_catalog_rate.
  destruct (rate_of t); reflexivity.
Qed.

Lemma validate_tariff_raised t :
  raised (validate_tariff TaxiCalculator t) = tariff_violation t.
Proof.
  unfold validate_tariff, tariff_violation. rewrite catalog_contains.
  destruct t as [|b|z|f|s|xs|xs|xs|xs]; try reflexivity;
    cbn [py_hash bind hashable negb]; destruct (in_catalog _); reflexivity.
Qed.

Lemma catalog_rate t :
  in_catalog t = true ->
  exists rate, dict_get (TARIFF_RATES TaxiCalculator) t = Some (PyInt rate) /\
               In rate [100; 150; 200; 300].
Proof.
  rewrite in_catalog_rate, catalog_get.
  destruct (rate_of t) as [rate|] eqn:E; [intros _ | discriminate].
  exists rate. split; [reflexivity | now apply (rate_of_cases t)].
Qed.

Lemma dict_getitem_found (d : dict) k v :
  hashable k = true -> dict_get d k = Some v -> dict_getitem d k = Ok v.
Proof.
  intros H G. unfold dict_getitem. rewrite py_hash_hashable, H, G. reflexivity.
Qed.

Lemma valid_rating_cases r :
  valid_rating r = true ->
  In r [PyBool true; PyInt 1; PyInt 2; PyInt 3; PyInt 4; PyInt 5].
Proof.
  unfold valid_rating, out_of_range.
  destruct r as [|b|z|f|s|xs|xs|xs|xs]; try discriminate; cbn [isinstance_int rating_level andb].
  - destruct b; [simpl; auto | discriminate].
  - rewrite negb_involutive, andb_true_iff, !Z.leb_le. intros [L U].
    assert (z = 1 \/ z = 2 \/ z = 3 \/ z = 4 \/ z = 5) as [->|[->|[->|[->| ->]]]] by lia;
      simpl; auto 10.
Qed.

Lemma rating_violation_valid r : rating_violation r = None <-> valid_rating r = true.
Proof.
  unfold rating_violation, valid_rating.
  destruct (isinstance_int r); cbn [negb andb]; [|split; discriminate].
  destruct (out_of_range r); split; (reflexivity || discriminate).
Qed.

(** ** Floats in the calculator *)

Lemma float_cmp_some x y :
  Prim2SF x <> S754_nan -> Prim2SF y <> S754_nan -> float_cmp x y <> None.
Proof.
  unfold float_cmp. rewrite compare_spec.
  destruct (Prim2SF x) as [sx|sx| |sx mx ex], (Prim2SF y) as [sy|sy| |sy my ey];
    intros Hx Hy; try congruence; cbn; try destruct sx; try destruct sy; try discriminate;
    destruct (ex ?= ey); try discriminate; destruct (Pos.compare_cont Eq mx my); discriminate.
Qed.

Lemma nonneg_not_nan x : nonneg x = true -> Prim2SF x <> S754_nan.
Proof. unfold nonneg. destruct (Prim2SF x); congruence. Qed.

Lemma not_ltb_leb x y :
  Prim2SF x <> S754_nan -> Prim2SF y <> S754_nan ->
  (x <? y)%float = false -> (y <=? x)%float = true.
Proof.
  intros Hx Hy. rewrite ltb_float_cmp, leb_float_cmp, (float_cmp_antisym x y).
  pose proof (float_cmp_some x y Hx Hy).
  destruct (float_cmp x y) as [[| |]|]; try reflexivity; congruence.
Qed.

Lemma ltb_0_nonneg f : (0 <? f)%float = true -> nonneg f = true.
Proof.
  rewrite ltb_spec. unfold nonneg. change (Prim2SF 0) with (S754_zero false).
  destruct (Prim2SF f) as [s|s| |s m e]; cbn; try discriminate; destruct s; (discriminate || reflexivity).
Qed.

Lemma ltb_0_not_leb f : (0 <? f)%float = true -> (f <=? 0)%float = false.
Proof.
  rewrite ltb_float_cmp, leb_float_cmp, (float_cmp_antisym 0 f).
  destruct (float_cmp 0 f) as [[| |]|]; (discriminate || reflexivity).
Qed.

Lemma below_mono x y z :
  nonneg x = true -> nonneg y = true ->
  (x <=? y)%float = true -> (y <? z)%float = true -> (x <? z)%float = true.
Proof.
  unfold nonneg. rewrite leb_spec, !ltb_spec. unfold SFleb, SFltb.
  pose proof (Prim2SF_valid x) as Vx. pose proof (Prim2SF_valid y) as Vy.
  pose proof (Prim2SF_valid z) as Vz.
  destruct (Prim2SF y) as [sy|sy| |sy my ey] eqn:Ey; try discriminate;
    destruct sy; try discriminate;
    destruct (Prim2SF x) as [sx|sx| |sx mx ex] eqn:Ex; try discriminate;
    destruct sx; try discriminate; intros _ _; try (cbn; discriminate).
  all: destruct (Prim2SF z) as [sz|sz| |sz mz ez] eqn:Ez;
    try (cbn; discriminate); try (destruct sz; cbn; (discriminate || reflexivity)).
  all: rewrite !SFcompare_scaled by (assumption || reflexivity).
  all: match goal with
       | |- context [ ?a ?= ?b ] =>
           destruct (Z.compare_spec a b)
       end; try discriminate; intros _.
  all: match goal with
       | |- context C [ match ?a ?= ?b with _ => _ end = true -> _ ] =>
           destruct (Z.compare_spec a b)
       end; try discriminate; intros _.
  all: match goal with
       | |- context [ ?a ?= ?b ] => destruct (Z.compare_spec a b)
       end; try reflexivity; lia.
Qed.

Lemma round_50 : Binary64.round 50 2 = 50%float.
Proof. vm_compute. reflexivity. Qed.

Lemma leb_50_round F :
  nonneg F = true -> (F <? 50)%float = false -> (50 <=? Binary64.round F 2)%float = true.
Proof.
  intros N H. rewrite <- round_50 at 1. apply round_mono; [reflexivity | assumption |].
  apply not_ltb_leb; [now apply nonneg_not_nan | discriminate | assumption].
Qed.

Lemma clamp_round_min F :
  nonneg F = true -> py_le (PyInt 50) (clamp_round F) = Ok true.
Proof.
  intros N. unfold clamp_round. destruct (F <? 50)%float eqn:H; [reflexivity|].
  rewrite py_le_50, leb_50_round by assumption. reflexivity.
Qed.

Lemma clamp_round_mono F F' :
  nonneg F = true -> nonneg F' = true -> (F <=? F')%float = true ->
  py_le (clamp_round F) (clamp_round F') = Ok true.
Proof.
  intros N N' H. unfold clamp_round.
  destruct (F' <? 50)%float eqn:H'.
  - rewrite (below_mono F F' 50 N N' H H'). reflexivity.
  - destruct (F <? 50)%float eqn:H0.
    + rewrite py_le_50, leb_50_round by assumption. reflexivity.
    + rewrite py_le_float, round_mono by assumption. reflexivity.
Qed.

(** ** The structure of [calculate_fare] *)

Lemma py_mul_float b T :
  to_num b <> None ->
  py_mul b (PyFloat T) = (x <- py_float b ;; py_mul x (PyFloat T)).
Proof.
  unfold py_mul, py_float. destruct (to_num b) as [[z|f]|] eqn:E; [| |congruence]; intros _.
  - cbn [to_num]. destruct (of_Z z); reflexivity.
  - reflexivity.
Qed.

Lemma py_mul_1 b : to_num b <> None -> py_mul b (PyFloat 1) = py_float b.
Proof.
  intros H. rewrite py_mul_float by assumption.
  unfold py_float. destruct (to_num b) as [[z|f]|]; [| |congruence].
  - destruct (of_Z z); cbn; [rewrite mul_1_r|]; reflexivity.
  - cbn. rewrite mul_1_r. reflexivity.
Qed.

Lemma py_mul_num d rate v :
  py_mul d (PyInt rate) = Ok v -> to_num v <> None.
Proof.
  unfold py_mul. cbn [to_num].
  destruct (to_num d) as [[z|f]|]; [| |discriminate].
  - intros [= <-]. discriminate.
  - destruct (of_Z rate); [|discriminate]. intros [= <-]. discriminate.
Qed.

Lemma multiplier_lookup r :
  valid_rating r = true ->
  (dict_getitem (TRAFFIC_MULTIPLIERS TaxiCalculator) r =
     Ok (PyFloat (multiplier (TRAFFIC_MULTIPLIERS TaxiCalculator) r))) /\
  (dict_getitem (WEATHER_MULTIPLIERS TaxiCalculator) r =
     Ok (PyFloat (multiplier (WEATHER_MULTIPLIERS TaxiCalculator) r))) /\
  (dict_getitem (OVERLOAD_MULTIPLIERS TaxiCalculator) r =
     Ok (PyFloat (multiplier (OVERLOAD_MULTIPLIERS TaxiCalculator) r))).
Proof.
  intros V. apply valid_rating_cases in V. simpl in V.
  repeat (destruct V as [<-|V]; [repeat split; vm_compute; reflexivity|]). contradiction.
Qed.

Lemma total_multiplier_pos r w o :
  valid_rating r = true -> valid_rating w = true -> valid_rating o = true ->
  pos_finite (total_multiplier TaxiCalculator r w o) = true.
Proof.
  intros Vr Vw Vo. apply valid_rating_cases in Vr, Vw, Vo. simpl in Vr, Vw, Vo.
  repeat (destruct Vr as [<-|Vr]; [|]); try contradiction;
  repeat (destruct Vw as [<-|Vw]; [|]); try contradiction;
  repeat (destruct Vo as [<-|Vo]; [|]); try contradiction; vm_compute; reflexivity.
Qed.

Lemma fare_of_valid d t r w o rate :
  dict_get (TARIFF_RATES TaxiCalculator) t = Some rate ->
  valid_rating r = true -> valid_rating w = true -> valid_rating o = true ->
  fare_of TaxiCalculator d t r w o =
  (base_fare <- py_mul d rate ;;
   fare <- py_mul base_fare (PyFloat (total_multiplier TaxiCalculator r w o)) ;;
   fare <- py_max fare (PyInt 50) ;;
   fare <- py_round fare 2 ;;
   Ok fare).
Proof.
  intros Ht Vr Vw Vo.
  destruct (multiplier_lookup r Vr) as (Hr & _ & _).
  destruct (multiplier_lookup w Vw) as (_ & Hw & _).
  destruct (multiplier_lookup o Vo) as (_ & _ & Ho).
  assert (Hh : hashable t = true).
  { apply in_catalog_hashable. rewrite in_catalog_rate.
    rewrite catalog_get in Ht. destruct (rate_of t); [reflexivity | discriminate]. }
  unfold fare_of. rewrite (dict_getitem_found _ t rate Hh Ht), Hr, Hw, Ho. cbn [bind].
  destruct (py_mul d rate); reflexivity.
Qed.

Lemma calculate_fare_checks self d t r w o :
  calculate_fare self d t r w o =
  match first_failure [validate_distance d; validate_tariff self t;
                       validate_rating r "пробок"; validate_rating w "непогоды";
                       validate_rating o "спроса"] with
  | Some e => Raise e
  | None => fare_of self d t r w o
  end.
Proof.
  unfold calculate_fare, calculate_fare_labelled.
  destruct (validate_distance d) as [[]|]; [|reflexivity].
  destruct (validate_tariff self t) as [[]|]; [|reflexivity].
  destruct (validate_rating r _) as [[]|]; [|reflexivity].
  destruct (validate_rating w _) as [[]|]; [|reflexivity].
  destruct (validate_rating o _) as [[]|]; reflexivity.
Qed.

Lemma raised_first_failure (checks : list (result unit)) :
  option_map kind_of (first_failure checks) = first_some (map raised checks).
Proof.
  induction checks as [|[u|e] rest IH]; [reflexivity | exact IH | reflexivity].
Qed.

Lemma first_failure_violation d t r w o :
  option_map kind_of
    (first_failure [validate_distance d; validate_tariff TaxiCalculator t;
                    validate_rating r "пробок"; validate_rating w "непогоды";
                    validate_rating o "спроса"]) =
  first_violation d t r w o.
Proof.
  rewrite raised_first_failure. cbn [map].
  rewrite validate_distance_raised, validate_tariff_raised, !validate_rating_raised.
  reflexivity.
Qed.


Lemma calculate_fare_passed d t r w o :
  first_violation d t r w o = None ->
  calculate_fare TaxiCalculator d t r w o = fare_of TaxiCalculator d t r w o.
Proof.
  intros H. rewrite calculate_fare_checks. rewrite <- first_failure_violation in H.
  destruct (first_failure _); [discriminate | reflexivity].
Qed.

Lemma tariff_violation_none t : tariff_violation t = None <-> in_catalog t = true.
Proof.
  unfold tariff_violation. split.
  - destruct (hashable t); [|discriminate]. cbn [negb].
    destruct (in_catalog t); [reflexivity | discriminate].
  - intros H. rewrite (in_catalog_hashable t H), H. reflexivity.
Qed.

Lemma first_violation_none d t r w o :
  first_violation d t r w o = None <->
  distance_violation d = None /\ in_catalog t = true /\
  valid_rating r = true /\ valid_rating w = true /\ valid_rating o = true.
Proof.
  unfold first_violation, first_some.
  rewrite <- !rating_violation_valid, <- tariff_violation_none.
  destruct (distance_violation d), (tariff_violation t), (rating_violation r),
    (rating_violation w), (rating_violation o); intuition discriminate.
Qed.

Lemma positive_no_violation d : is_positive d = true -> distance_violation d = None.
Proof.
  unfold distance_violation, is_positive. destruct d as [|b|z|f|s|xs|xs|xs|xs]; try discriminate; cbn.
  - intros ->. reflexivity.
  - intros H. apply Z.ltb_lt in H. destruct (Z.leb_spec z 0); [lia | reflexivity].
  - intros H. rewrite ltb_0_not_leb by assumption. reflexivity.
Qed.

Lemma valid_input_spec d t r w o :
  valid_input d t r w o = true <->
  is_positive d = true /\ in_catalog t = true /\
  valid_rating r = true /\ valid_rating w = true /\ valid_rating o = true.
Proof. unfold valid_input. rewrite !andb_true_iff. tauto. Qed.

Lemma valid_input_no_violation d t r w o :
  valid_input d t r w o = true -> first_violation d t r w o = None.
Proof.
  rewrite valid_input_spec, first_violation_none. intros (P & H). split; [|exact H].
  now apply positive_no_violation.
Qed.

Lemma RN_infinity_mono a1 a2 b :
  0 < b -> a1 <= a2 ->
  RN false a1 b = S754_infinity false -> RN false a2 b = S754_infinity false.
Proof.
  intros Hb Hle H1. pose proof (RN_mono a1 a2 b Hb Hle) as M. rewrite H1 in M.
  destruct (RN_shape false a2 b) as [E|[E|(m & e & E)]]; rewrite E in *;
    (reflexivity || discriminate).
Qed.

Lemma RN_threshold : RN false overflow_threshold 1 = S754_infinity false.
Proof. vm_compute. reflexivity. Qed.

Lemma RN_below_threshold :
  RN false (overflow_threshold - 1) 1 = S754_finite false 9007199254740991 971.
Proof. vm_compute. reflexivity. Qed.

(** The integers that convert to a float are those below the threshold. *)
Lemma of_Z_overflow a : 0 < a -> (of_Z a = None <-> overflow_threshold <= a).
Proof.
  intros Ha. unfold of_Z.
  destruct (Z.ltb_spec a 0) as [N|_]; [exfalso; exact (Z.lt_asymm _ _ Ha N)|].
  rewrite (Z.abs_eq a (Z.lt_le_incl _ _ Ha)).
  pose proof RN_threshold as Hi. pose proof RN_below_threshold as Hf.
  generalize dependent overflow_threshold. intros T Hi Hf.
  split.
  - intros HN. destruct (Z_le_gt_dec T a) as [|G]; [assumption | exfalso].
    assert (I : RN false a 1 = S754_infinity false).
    { destruct (RN_shape false a 1) as [E|[E|(m & e & E)]]; rewrite E in *;
        [discriminate | reflexivity | discriminate]. }
    assert (L : a <= T - 1) by lia.
    pose proof (RN_infinity_mono a (T - 1) 1 Z.lt_0_1 L I) as K.
    rewrite Hf in K. discriminate K.
  - intros G. rewrite (RN_infinity_mono T a 1 Z.lt_0_1 G Hi). reflexivity.
Qed.

Lemma of_Z_cases a :
  0 < a ->
  (exists B, of_Z a = Some B /\ (overflow_threshold <=? a) = false) \/
  (of_Z a = None /\ (overflow_threshold <=? a) = true).
Proof.
  intros Ha. destruct (of_Z a) as [B|] eqn:E.
  - left. exists B. split; [reflexivity|].
    destruct (Z.leb_spec overflow_threshold a) as [G|]; [|reflexivity].
    apply (of_Z_overflow a Ha) in G. rewrite G in E. discriminate E.
  - right. split; [reflexivity|]. apply Z.leb_le. now apply of_Z_overflow.
Qed.

Lemma of_Z_nonneg a B : 0 <= a -> of_Z a = Some B -> nonneg B = true.
Proof.
  intros L. unfold of_Z. destruct (Z.ltb_spec a 0); [lia|].
  pose proof (nonneg_RN (Z.abs a) 1 ltac:(lia)) as N.
  destruct (RN false (Z.abs a) 1); try discriminate; intros [= <-]; exact N.
Qed.

Lemma of_Z_rate rate :
  In rate [100; 150; 200; 300] ->
  exists f, of_Z rate = Some f /\ pos_finite f = true.
Proof.
  simpl. intros [<-|[<-|[<-|[<-|[]]]]];
    [exists 100%float | exists 150%float | exists 200%float | exists 300%float];
    split; vm_compute; reflexivity.
Qed.

Lemma base_cases d rate :
  distance_violation d = None -> In rate [100; 150; 200; 300] ->
  (exists B, (b <- py_mul d (PyInt rate) ;; py_float b) = Ok (PyFloat B) /\
             overflows d rate = false /\
             (is_positive d = true -> nonneg B = true)) \/
  ((b <- py_mul d (PyInt rate) ;; py_float b) =
     Raise (OverflowError [Text "int too large to convert to float"]) /\
   overflows d rate = true).
Proof.
  intros V R. assert (Hr : 100 <= rate <= 300) by (simpl in R; lia).
  unfold distance_violation in V.
  destruct d as [|b|z|f|s|xs|xs|xs|xs]; try discriminate; cbn in V.
  - destruct b; [|discriminate].
    unfold py_mul, py_float, overflows. cbn [to_num bind Z.b2z].
    destruct (of_Z_cases (1 * rate) ltac:(lia)) as [(B & E & G)|[E G]]; rewrite E, G.
    + left. exists B. split; [reflexivity|]. split; [reflexivity|]. intros _.
      apply (of_Z_nonneg (1 * rate)); [lia | exact E].
    + right. split; reflexivity.
  - destruct (Z.leb_spec z 0) as [|P]; [discriminate|].
    unfold py_mul, py_float, overflows. cbn [to_num bind].
    assert (Pz : 0 < z * rate) by nia.
    destruct (of_Z_cases (z * rate) Pz) as [(B & E & G)|[E G]]; rewrite E, G.
    + left. exists B. split; [reflexivity|]. split; [reflexivity|]. intros _.
      apply (of_Z_nonneg (z * rate)); [lia | exact E].
    + right. split; reflexivity.
  - left. destruct (of_Z_rate rate R) as (rf & Hf & Pf).
    unfold py_mul, py_float. cbn [to_num bind]. rewrite Hf. cbn [to_num bind].
    exists (f * rf)%float. split; [reflexivity|]. split; [reflexivity|].
    cbn [is_positive]. intros Hp.
    apply nonneg_mul; [now apply ltb_0_nonneg | assumption].
Qed.

Lemma calculate_fare_ok d t r w o rate B :
  first_violation d t r w o = None ->
  dict_get (TARIFF_RATES TaxiCalculator) t = Some (PyInt rate) ->
  (b <- py_mul d (PyInt rate) ;; py_float b) = Ok (PyFloat B) ->
  calculate_fare TaxiCalculator d t r w o =
  Ok (clamp_round (B * total_multiplier TaxiCalculator r w o)).
Proof.
  intros V Ht Hb. rewrite calculate_fare_passed by assumption.
  apply first_violation_none in V. destruct V as (_ & _ & Vr & Vw & Vo).
  rewrite (fare_of_valid d t r w o (PyInt rate)) by assumption.
  destruct (py_mul d (PyInt rate)) as [base|e] eqn:E; [|discriminate].
  cbn [bind] in *. rewrite py_mul_float by (eapply py_mul_num; eassumption).
  rewrite Hb. cbn [bind py_mul to_num]. apply clamp_round_spec.
Qed.

Lemma calculate_fare_overflow d t r w o rate e :
  first_violation d t r w o = None ->
  dict_get (TARIFF_RATES TaxiCalculator) t = Some (PyInt rate) ->
  (b <- py_mul d (PyInt rate) ;; py_float b) = Raise e ->
  calculate_fare TaxiCalculator d t r w o = Raise e.
Proof.
  intros V Ht Hb. rewrite calculate_fare_passed by assumption.
  apply first_violation_none in V. destruct V as (_ & _ & Vr & Vw & Vo).
  rewrite (fare_of_valid d t r w o (PyInt rate)) by assumption.
  destruct (py_mul d (PyInt rate)) as [base|e'] eqn:E; [|exact Hb].
  cbn [bind] in *. rewrite py_mul_float by (eapply py_mul_num; eassumption).
  rewrite Hb. reflexivity.
Qed.




(** ** The multipliers *)

Lemma next_level_cases r r' :
  valid_rating r = true -> valid_rating r' = true -> next_level r r' = true ->
  In (r, r') [(PyBool true, PyInt 2); (PyInt 1, PyInt 2); (PyInt 2, PyInt 3);
              (PyInt 3, PyInt 4); (PyInt 4, PyInt 5)].
Proof.
  intros V V' S. apply valid_rating_cases in V, V'. simpl in V, V'.
  repeat (destruct V as [<-|V]; [|]); try contradiction;
  repeat (destruct V' as [<-|V']; [|]); try contradiction;
    try discriminate S; simpl; auto 10.
Qed.

Lemma total_multiplier_mono r w o r' w' o' :
  valid_rating r = true -> valid_rating w = true -> valid_rating o = true ->
  valid_rating r' = true -> valid_rating w' = true -> valid_rating o' = true ->
  one_step (r, w, o) (r', w', o') ->
  (total_multiplier TaxiCalculator r w o <=? total_multiplier TaxiCalculator r' w' o')%float = true.
Proof.
  intros Vr Vw Vo Vr' Vw' Vo' S. inversion S as [? ? ? ? N|? ? ? ? N|? ? ? ? N]; subst.
  - pose proof (next_level_cases _ _ Vr Vr' N) as C. clear N Vr Vr' Vw' Vo' S.
    apply valid_rating_cases in Vw, Vo. simpl in C, Vw, Vo.
    repeat (destruct C as [[= <- <-]|C]; [|]); try contradiction;
    repeat (destruct Vw as [<-|Vw]; [|]); try contradiction;
    repeat (destruct Vo as [<-|Vo]; [|]); try contradiction; vm_compute; reflexivity.
  - pose proof (next_level_cases _ _ Vw Vw' N) as C. clear N Vw Vw' Vr' Vo' S.
    apply valid_rating_cases in Vr, Vo. simpl in C, Vr, Vo.
    repeat (destruct C as [[= <- <-]|C]; [|]); try contradiction;
    repeat (destruct Vr as [<-|Vr]; [|]); try contradiction;
    repeat (destruct Vo as [<-|Vo]; [|]); try contradiction; vm_compute; reflexivity.
  - pose proof (next_level_cases _ _ Vo Vo' N) as C. clear N Vo Vo' Vr' Vw' S.
    apply valid_rating_cases in Vr, Vw. simpl in C, Vr, Vw.
    repeat (destruct C as [[= <- <-]|C]; [|]); try contradiction;
    repeat (destruct Vr as [<-|Vr]; [|]); try contradiction;
    repeat (destruct Vw as [<-|Vw]; [|]); try contradiction; vm_compute; reflexivity.
Qed.

Lemma bind_ret {A : Type} (c : result A) : (x <- c ;; Ok x) = c.
Proof. destruct c; reflexivity. Qed.

Lemma catalog_rate_inv t rate :
  dict_get (TARIFF_RATES TaxiCalculator) t = Some rate ->
  in_catalog t = true /\ exists z, rate = PyInt z /\ In z [100; 150; 200; 300].
Proof.
  intros H. assert (C : in_catalog t = true).
  { rewrite in_catalog_rate. rewrite catalog_get in H.
    destruct (rate_of t); [reflexivity | discriminate]. }
  split; [assumption|]. destruct (catalog_rate t C) as (z & Hz & R).
  exists z. split; [congruence | assumption].
Qed.

(** ** The claims *)

(** C1. The seven worked scenarios of the specification: each call returns
    a value equal to the stated one.  The fourth returns the minimum fare
    itself, the integer 50, which equals 50.0. *)
Theorem calculate_fare_scenarios :
  returns (calculate_fare TaxiCalculator (PyInt 10) (PyStr "эконом")
             default_rating default_rating default_rating) (PyFloat 1000.0) /\
  returns (calculate_fare TaxiCalculator (PyInt 10) (PyStr "комфорт")
             default_rating default_rating default_rating) (PyFloat 1500.0) /\
  returns (calculate_fare TaxiCalculator (PyInt 10) (PyStr "бизнес")
             default_rating default_rating default_rating) (PyFloat 3000.0) /\
  returns (calculate_fare TaxiCalculator (PyFloat 0.1) (PyStr "эконом")
             default_rating default_rating default_rating) (PyFloat 50.0) /\
  returns (calculate_fare TaxiCalculator (PyInt 10) (PyStr "эконом")
             (PyInt 5) default_rating default_rating) (PyFloat 2000.0) /\
  returns (calculate_fare TaxiCalculator (PyInt 10) (PyStr "эконом")
             (PyInt 4) (PyInt 3) (PyInt 2)) (PyFloat 1897.5) /\
  returns (calculate_fare TaxiCalculator (PyInt 1) (PyStr "комфорт_плюс")
             (PyInt 5) (PyInt 5) (PyInt 5)) (PyFloat 1200.0).
Proof.
  unfold returns. repeat match goal with |- _ /\ _ => split end.
  - exists (PyFloat 1000). split; vm_compute; reflexivity.
  - exists (PyFloat 1500). split; vm_compute; reflexivity.
  - exists (PyFloat 3000). split; vm_compute; reflexivity.
  - exists (PyInt 50). split; vm_compute; reflexivity.
  - exists (PyFloat 2000). split; vm_compute; reflexivity.
  - exists (PyFloat 1897.5). split; vm_compute; reflexivity.
  - exists (PyFloat 1200). split; vm_compute; reflexivity.
Qed.

(** C2, as stated, fails: with default ratings the fare of 1.0078125 km at
    the rate 100 is 100.78, and [max(d * rate, 50)] is 100.78125. *)
Lemma default_fare_is_rounded :
  (b <- py_mul (PyFloat 1.0078125) (PyInt 100) ;; py_max b (MIN_FARE TaxiCalculator)) =
    Ok (PyFloat 100.78125) /\
  calculate_fare TaxiCalculator (PyFloat 1.0078125) (PyStr "эконом")
    default_rating default_rating default_rating = Ok (PyFloat 100.78) /\
  py_eq (PyFloat 100.78) (PyFloat 100.78125) = false.
Proof. by_evaluation. Qed.

(** C2, amended.  For every numeric distance [d > 0] and every tariff [t]
    of the catalog, [calculate_fare(d, t)] with the three ratings at their
    default is [round(max(float(d * rate[t]), 50), 2)]: the product is taken
    as a binary64 number, and the result is rounded to two places. *)
Theorem calculate_fare_default_ratings d t rate :
  is_positive d = true ->
  dict_get (TARIFF_RATES TaxiCalculator) t = Some rate ->
  calculate_fare TaxiCalculator d t default_rating default_rating default_rating =
  (b <- py_mul d rate ;;
   x <- py_float b ;;
   m <- py_max x (MIN_FARE TaxiCalculator) ;;
   py_round m 2).
Proof.
  intros P Ht. destruct (catalog_rate_inv t rate Ht) as (C & z & -> & R).
  assert (V : first_violation d t default_rating default_rating default_rating = None).
  { apply valid_input_no_violation. apply valid_input_spec. repeat split; auto. }
  rewrite calculate_fare_passed by assumption.
  rewrite (fare_of_valid d t _ _ _ (PyInt z)) by (assumption || reflexivity).
  change (total_multiplier TaxiCalculator default_rating default_rating default_rating)
    with 1%float.
  destruct (py_mul d (PyInt z)) as [base|e] eqn:E; [|reflexivity]. cbn [bind].
  rewrite py_mul_1 by (eapply py_mul_num; eassumption).
  destruct (py_float base) as [x|e]; [|reflexivity]. cbn [bind MIN_FARE TaxiCalculator].
  destruct (py_max x (PyInt 50)) as [m|e]; [|reflexivity]. cbn [bind].
  apply bind_ret.
Qed.

Lemma calculate_fare_default_ratings_witness :
  calculate_fare TaxiCalculator (PyFloat 1.0078125) (PyStr "эконом")
    default_rating default_rating default_rating =
  (b <- py_mul (PyFloat 1.0078125) (PyInt 100) ;;
   x <- py_float b ;;
   m <- py_max x (MIN_FARE TaxiCalculator) ;;
   py_round m 2).
Proof. apply calculate_fare_default_ratings; vm_compute; reflexivity. Defined.

(** C3. Whenever [calculate_fare] succeeds on a request that meets the
    preconditions (numeric distance [> 0], tariff of the catalog, integer
    ratings in [1, 5]), the fare is at least the minimum fare, 50. *)
Theorem fare_at_least_minimum d t r w o v :
  valid_input d t r w o = true ->
  calculate_fare TaxiCalculator d t r w o = Ok v ->
  py_le (MIN_FARE TaxiCalculator) v = Ok true.
Proof.
  intros V H. pose proof V as V'. apply valid_input_spec in V'.
  destruct V' as (P & Ct & Vr & Vw & Vo).
  pose proof (valid_input_no_violation _ _ _ _ _ V) as NV.
  destruct (catalog_rate t Ct) as (rate & Ht & R).
  destruct (base_cases d rate (positive_no_violation d P) R) as [(B & HB & _ & NB)|(HB & _)].
  - rewrite (calculate_fare_ok _ _ _ _ _ _ _ NV Ht HB) in H. injection H as <-.
    apply clamp_round_min. apply nonneg_mul; [auto | now apply total_multiplier_pos].
  - rewrite (calculate_fare_overflow _ _ _ _ _ _ _ NV Ht HB) in H. discriminate.
Qed.

Lemma fare_at_least_minimum_witness :
  valid_input (PyFloat 3.33) (PyStr "комфорт") (PyInt 1) (PyInt 3) (PyInt 1) = true /\
  calculate_fare TaxiCalculator (PyFloat 3.33) (PyStr "комфорт") (PyInt 1) (PyInt 3) (PyInt 1) =
    Ok (PyFloat 574.42) /\
  py_le (MIN_FARE TaxiCalculator) (PyFloat 574.42) = Ok true.
Proof.
  split; [vm_compute; reflexivity|]. split; [vm_compute; reflexivity|].
  apply (fare_at_least_minimum (PyFloat 3.33) (PyStr "комфорт") (PyInt 1) (PyInt 3) (PyInt 1));
    vm_compute; reflexivity.
Defined.



(** C5. The five validations run in the order distance, tariff, traffic,
    weather, demand: the call raises the error of the first check that
    fails, and nothing else of the call decides the result then; the fare
    is computed only when all five pass. *)
Theorem validation_order self d t r w o :
  calculate_fare self d t r w o =
  match first_failure [validate_distance d; validate_tariff self t;
                       validate_rating r "пробок"; validate_rating w "непогоды";
                       validate_rating o "спроса"] with
  | Some e => Raise e
  | None => fare_of self d t r w o
  end.
Proof. apply calculate_fare_checks. Qed.

(** C6. On valid requests, raising one of the three ratings by one step,
    with the distance, the tariff and the other two ratings kept, never
    lowers the fare. *)
Theorem fare_monotone_in_ratings d t r w o r' w' o' v v' :
  valid_input d t r w o = true ->
  valid_input d t r' w' o' = true ->
  one_step (r, w, o) (r', w', o') ->
  calculate_fare TaxiCalculator d t r w o = Ok v ->
  calculate_fare TaxiCalculator d t r' w' o' = Ok v' ->
  py_le v v' = Ok true.
Proof.
  intros V V' S H H'. pose proof V as I. pose proof V' as I'.
  apply valid_input_spec in I, I'.
  destruct I as (P & Ct & Vr & Vw & Vo). destruct I' as (_ & _ & Vr' & Vw' & Vo').
  pose proof (valid_input_no_violation _ _ _ _ _ V) as NV.
  pose proof (valid_input_no_violation _ _ _ _ _ V') as NV'.
  destruct (catalog_rate t Ct) as (rate & Ht & R).
  destruct (base_cases d rate (positive_no_violation d P) R) as [(B & HB & _ & NB)|(HB & _)].
  - rewrite (calculate_fare_ok _ _ _ _ _ _ _ NV Ht HB) in H. injection H as <-.
    rewrite (calculate_fare_ok _ _ _ _ _ _ _ NV' Ht HB) in H'. injection H' as <-.
    specialize (NB P).
    apply clamp_round_mono.
    + apply nonneg_mul; [assumption | now apply total_multiplier_pos].
    + apply nonneg_mul; [assumption | now apply total_multiplier_pos].
    + apply mul_mono; [assumption | now apply total_multiplier_pos
                       | now apply total_multiplier_pos | now apply total_multiplier_mono].
  - rewrite (calculate_fare_overflow _ _ _ _ _ _ _ NV Ht HB) in H. discriminate.
Qed.

Lemma fare_monotone_in_ratings_witness :
  calculate_fare TaxiCalculator (PyFloat 3.33) (PyStr "комфорт") (PyInt 1) (PyInt 3) (PyInt 1) =
    Ok (PyFloat 574.42) /\
  calculate_fare TaxiCalculator (PyFloat 3.33) (PyStr "комфорт") (PyInt 1) (PyInt 4) (PyInt 1) =
    Ok (PyFloat 649.35) /\
  py_le (PyFloat 574.42) (PyFloat 649.35) = Ok true.
Proof.
  split; [vm_compute; reflexivity|]. split; [vm_compute; reflexivity|].
  apply (fare_monotone_in_ratings (PyFloat 3.33) (PyStr "комфорт")
           (PyInt 1) (PyInt 3) (PyInt 1) (PyInt 1) (PyInt 4) (PyInt 1)).
  - vm_compute; reflexivity.
  - vm_compute; reflexivity.
  - apply step_weather. reflexivity.
  - vm_compute; reflexivity.
  - vm_compute; reflexivity.
Defined.

Lemma float_infinity F : Prim2SF F = S754_infinity false -> F = infinity.
Proof. intros E. rewrite <- (SF2Prim_Prim2SF F), E. reflexivity. Qed.

Lemma round_hundredths F :
  nonneg F = true -> (F <? 50)%float = false ->
  Binary64.round F 2 = infinity \/ exists N, 5000 <= N /\ Binary64.round F 2 = hundredths N.
Proof.
  intros N H. pose proof (not_ltb_leb F 50 (nonneg_not_nan F N) ltac:(discriminate) H) as L.
  rewrite round_unfold. rewrite leb_spec in L. unfold nonneg in N.
  pose proof (Prim2SF_valid F) as V.
  destruct (Prim2SF F) as [s|s| |s m e] eqn:E; try discriminate; destruct s; try discriminate.
  - left. now apply float_infinity.
  - right. eexists. split; [|reflexivity].
    rewrite SFleb_scaled in L by (assumption || reflexivity). apply Z.leb_le in L.
    replace (scaled (Prim2SF 50)) with (50 * 2 ^ 1074) in L by (vm_compute; reflexivity).
    destruct (scaled_pos_finite m e V) as [-> _].
    apply half_even_ge; [apply pow2_pos; lia|].
    change (10 ^ Z.of_nat 2) with 100. lia.
Qed.

(** C7, as stated, fails: the fare of 0.641 km at the rate 100 is the
    binary64 number nearest to 64.1, and a hundred times that number is no
    integer, neither exactly nor as the float product [100 * fare]. *)
Lemma hundredfold_fare_not_integral :
  calculate_fare TaxiCalculator (PyFloat 0.641) (PyStr "эконом")
    default_rating default_rating default_rating = Ok (PyFloat 64.1) /\
  hundredfold_integral (PyFloat 64.1) = false /\
  py_mul (PyInt 100) (PyFloat 64.1) = Ok (PyFloat 6409.999999999999) /\
  is_integral (PyFloat 6409.999999999999) = false.
Proof. by_evaluation. Qed.

(** C7, amended.  On valid requests the fare is the minimum fare 50, or
    the binary64 number nearest to a decimal number [N / 100] of two
    places with [5000 <= N], or [+inf] when the fare is beyond binary64. *)
Theorem fare_nearest_to_hundredths d t r w o v :
  valid_input d t r w o = true ->
  calculate_fare TaxiCalculator d t r w o = Ok v ->
  v = PyInt 50 \/ v = PyFloat infinity \/
  exists N, 5000 <= N /\ v = PyFloat (hundredths N).
Proof.
  intros V H. pose proof V as V'. apply valid_input_spec in V'.
  destruct V' as (P & Ct & Vr & Vw & Vo).
  pose proof (valid_input_no_violation _ _ _ _ _ V) as NV.
  destruct (catalog_rate t Ct) as (rate & Ht & R).
  destruct (base_cases d rate (positive_no_violation d P) R) as [(B & HB & _ & NB)|(HB & _)].
  - rewrite (calculate_fare_ok _ _ _ _ _ _ _ NV Ht HB) in H. injection H as <-.
    unfold clamp_round.
    destruct (B * total_multiplier TaxiCalculator r w o <? 50)%float eqn:L; [left; reflexivity|].
    right. destruct (round_hundredths _
             (nonneg_mul _ _ (NB P) (total_multiplier_pos r w o Vr Vw Vo)) L) as [->|(N & HN & ->)].
    + left. reflexivity.
    + right. exists N. split; [assumption | reflexivity].
  - rewrite (calculate_fare_overflow _ _ _ _ _ _ _ NV Ht HB) in H. discriminate.
Qed.

Lemma fare_nearest_to_hundredths_witness :
  calculate_fare TaxiCalculator (PyFloat 0.641) (PyStr "эконом")
    default_rating default_rating default_rating = Ok (PyFloat 64.1) /\
  (PyFloat 64.1 = PyInt 50 \/ PyFloat 64.1 = PyFloat infinity \/
   exists N, 5000 <= N /\ PyFloat 64.1 = PyFloat (hundredths N)).
Proof.
  split; [vm_compute; reflexivity|].
  apply (fare_nearest_to_hundredths (PyFloat 0.641) (PyStr "эконом")
           default_rating default_rating default_rating);
    vm_compute; reflexivity.
Defined.

(** C8. [get_tariff_info] returns the four tariffs in the order of the
    catalog, the rates 100, 150, 200 and 300 under their tariffs (the
    catalog itself), and the minimum fare 50.  The method is a function of
    the class: it reads [TARIFF_RATES] and [MIN_FARE], whatever they hold,
    and has nothing to change. *)
Theorem get_tariff_info_spec :
  let info := get_tariff_info TaxiCalculator in
  (info_tariffs info =
     [PyStr "эконом"; PyStr "комфорт"; PyStr "комфорт_плюс"; PyStr "бизнес"] /\
   dict_getitem (info_rates info) (PyStr "эконом") = Ok (PyInt 100) /\
   dict_getitem (info_rates info) (PyStr "комфорт") = Ok (PyInt 150) /\
   dict_getitem (info_rates info) (PyStr "комфорт_плюс") = Ok (PyInt 200) /\
   dict_getitem (info_rates info) (PyStr "бизнес") = Ok (PyInt 300) /\
   dict_keys (info_rates info) = info_tariffs info /\
   info_min_fare info = PyInt 50) /\
  (forall self : Class,
     info_tariffs (get_tariff_info self) = dict_keys (TARIFF_RATES self) /\
     info_rates (get_tariff_info self) = TARIFF_RATES self /\
     info_min_fare (get_tariff_info self) = MIN_FARE self).
Proof.
  cbv zeta. split.
  - repeat match goal with |- _ /\ _ => split end; reflexivity.
  - intros self. repeat split.
Qed.

(** C9 fails on the code: a request that meets the preconditions with an
    integer distance beyond the binary64 range does not return; the
    conversion of the base fare raises [OverflowError]. *)
Theorem calculate_fare_overflows :
  valid_input (PyInt (10 ^ 400)) (PyStr "эконом")
    default_rating default_rating default_rating = true /\
  calculate_fare TaxiCalculator (PyInt (10 ^ 400)) (PyStr "эконом")
    default_rating default_rating default_rating =
  Raise (OverflowError [Text "int too large to convert to float"]).
Proof. by_evaluation. Qed.

(** C10. The label of [validate_rating] reaches the text of the range
    error only: for two labels the check gives the same result, or two range
    errors; and [calculate_fare] gives the same fare, or an error of the same
    kind, whatever labels its three rating validations are given. *)
Theorem rating_label_irrelevant :
  (forall r l1 l2,
     validate_rating r l1 = validate_rating r l2 \/
     exists m1 m2, validate_rating r l1 = Raise (ValueError m1) /\
                   validate_rating r l2 = Raise (ValueError m2)) /\
  (forall r l1 l2, raised (validate_rating r l1) = raised (validate_rating r l2)) /\
  (forall self a b c a' b' c' d t r w o,
     outcome (calculate_fare_labelled self a b c d t r w o) =
     outcome (calculate_fare_labelled self a' b' c' d t r w o)).
Proof.
  assert (L : forall r l1 l2,
             validate_rating r l1 = validate_rating r l2 \/
             exists m1 m2, validate_rating r l1 = Raise (ValueError m1) /\
                           validate_rating r l2 = Raise (ValueError m2)).
  { intros r l1 l2. unfold validate_rating.
    destruct (negb (isinstance_int r)); [left; reflexivity|].
    destruct (py_le (PyInt 1) r) as [low|e]; [|left; reflexivity]. cbn [bind].
    destruct (if low then py_le r (PyInt 5) else Ok false) as [inside|e]; [|left; reflexivity].
    cbn [bind]. destruct (negb inside); [right; eauto | left; reflexivity]. }
  split; [exact L|]. split.
  - intros r l1 l2. rewrite !validate_rating_raised. reflexivity.
  - intros self a b c a' b' c' d t r w o. unfold calculate_fare_labelled.
    destruct (validate_distance d) as [[]|]; [|reflexivity].
    destruct (validate_tariff self t) as [[]|]; [|reflexivity]. cbn [bind].
    destruct (L r a a') as [->|(m1 & m2 & -> & ->)]; [|reflexivity].
    destruct (validate_rating r a') as [[]|]; [|reflexivity]. cbn [bind].
    destruct (L w b b') as [->|(m1 & m2 & -> & ->)]; [|reflexivity].
    destruct (validate_rating w b') as [[]|]; [|reflexivity]. cbn [bind].
    destruct (L o c c') as [->|(m1 & m2 & -> & ->)]; [|reflexivity].
    destruct (validate_rating o c') as [[]|]; reflexivity.
Qed.

(** * Further properties *)

(** ** More of binary64 *)

Lemma is_nan_Prim2SF f : is_nan f = true <-> Prim2SF f = S754_nan.
Proof.
  unfold Prim2SF. destruct (is_nan f); [split; reflexivity|].
  split; [discriminate|].
  destruct (is_zero f); [discriminate|]. destruct (is_infinity f); [discriminate|].
  destruct (Z.frexp f) as [r e]. destruct (shr_fexp _ _ _ _ _) as [m e'].
  destruct (shr_m m); discriminate.
Qed.

Lemma is_nan_eq f : is_nan f = true -> f = nan.
Proof. intros H. apply Prim2SF_inj. apply is_nan_Prim2SF in H. rewrite H. reflexivity. Qed.

Lemma leb_0_false f :
  (f <=? 0)%float = false <-> (0 <? f)%float = true \/ is_nan f = true.
Proof.
  split.
  - intros H. destruct (is_nan f) eqn:N; [right; reflexivity | left].
    assert (Hf : Prim2SF f <> S754_nan).
    { intros E. apply is_nan_Prim2SF in E. congruence. }
    pose proof (float_cmp_some 0 f ltac:(discriminate) Hf) as S.
    rewrite leb_float_cmp, (float_cmp_antisym 0 f) in H. rewrite ltb_float_cmp.
    destruct (float_cmp 0 f) as [[| |]|]; (reflexivity || discriminate || congruence).
  - intros [H|H]; [now apply ltb_0_not_leb|].
    apply is_nan_eq in H. subst f. reflexivity.
Qed.

Lemma mul_nan_l x : (nan * x)%float = nan.
Proof.
  apply Prim2SF_inj. rewrite mul_spec. change (Prim2SF nan) with S754_nan. reflexivity.
Qed.

Lemma mul_infinity_pos x : pos_finite x = true -> (infinity * x)%float = infinity.
Proof.
  unfold pos_finite. intros H. apply Prim2SF_inj. rewrite mul_spec.
  change (Prim2SF infinity) with (S754_infinity false).
  destruct (Prim2SF x) as [s|s| |[|] m e]; try discriminate. reflexivity.
Qed.

Lemma leb_infinity B : nonneg B = true -> (B <=? infinity)%float = true.
Proof.
  intros N. rewrite leb_spec. change (Prim2SF infinity) with (S754_infinity false).
  apply SFleb_infinity. now apply nonneg_not_nan.
Qed.

Lemma SFleb_zero_nonneg x :
  nonneg x = true -> SFleb (S754_zero false) (Prim2SF x) = true.
Proof.
  unfold nonneg. destruct (Prim2SF x) as [s|s| |s m e]; try discriminate;
    destruct s; try discriminate; reflexivity.
Qed.

(** Multiplication by a positive number is monotone on the left too. *)
Lemma mul_mono_l x y c :
  nonneg x = true -> nonneg y = true -> pos_finite c = true ->
  (x <=? y)%float = true -> (x * c <=? y * c)%float = true.
Proof.
  intros Nx Ny Pc. pose proof (nonneg_mul y c Ny Pc) as Nyc.
  revert Nx Ny Pc. unfold nonneg at 1 2, pos_finite. rewrite !leb_spec, !mul_spec.
  pose proof (Prim2SF_valid x) as Vx. pose proof (Prim2SF_valid y) as Vy.
  pose proof (Prim2SF_valid c) as Vc.
  generalize (SFleb_zero_nonneg _ Nyc). rewrite mul_spec. clear Nyc.
  destruct (Prim2SF c) as [sc|sc| |[|] mc ec]; try discriminate.
  destruct (Prim2SF x) as [sx|sx| |sx mx ex]; try discriminate;
    destruct sx; try discriminate;
    destruct (Prim2SF y) as [sy|sy| |sy my ey]; try discriminate;
    destruct sy; try discriminate; intros Z _ _ _ Hle; try reflexivity;
    try discriminate Hle; try exact Z.
  - change (SF64mul (S754_infinity false) (S754_finite false mc ec))
      with (S754_infinity false).
    apply SFleb_infinity. unfold SF64mul.
    rewrite SFmul_RN by (assumption || reflexivity). apply RN_not_nan. apply pow2_pos. lia.
  - unfold SF64mul. rewrite !SFmul_RN by (assumption || reflexivity).
    cbn [sign_of xorb]. apply RN_mono; [apply pow2_pos; lia|].
    rewrite SFleb_scaled in Hle by (assumption || reflexivity). apply Z.leb_le in Hle.
    destruct (scaled_pos_finite mx ex Vx) as [-> Px].
    destruct (scaled_pos_finite my ey Vy) as [-> Py].
    apply Z.mul_le_mono_nonneg_r; [apply Z.abs_nonneg | assumption].
Qed.

Lemma leb_scale_r x y p : 0 < p -> (x * p <=? y * p) = (x <=? y).
Proof.
  intros Hp. destruct (Z.leb_spec x y) as [L|L]; destruct (Z.leb_spec (x * p) (y * p)) as [U|U];
    try reflexivity; exfalso.
  - apply (Z.mul_le_mono_nonneg_r _ _ p) in L; lia.
  - apply (Z.mul_lt_mono_pos_r p) in L; lia.
Qed.

Lemma mag_scale a b k : 0 < a -> 0 < b -> 0 <= k -> mag (a * 2 ^ k) (b * 2 ^ k) = mag a b.
Proof.
  intros Ha Hb Hk. unfold mag. rewrite !Z.log2_mul_pow2 by assumption.
  replace (k + Z.log2 a - (k + Z.log2 b)) with (Z.log2 a - Z.log2 b) by lia.
  rewrite (Z.mul_shuffle0 b), (Z.mul_shuffle0 a).
  rewrite leb_scale_r by (apply pow2_pos; assumption). reflexivity.
Qed.

(** The rounding of a quotient does not depend on a common power of two. *)
Lemma RN_scale s a b k : 0 < b -> 0 <= k -> RN s (a * 2 ^ k) (b * 2 ^ k) = RN s a b.
Proof.
  intros Hb Hk. pose proof (pow2_pos k Hk) as Hp. rewrite !RN_unfold.
  replace (a * 2 ^ k <=? 0) with (a <=? 0)
    by (rewrite <- (leb_scale_r a 0 (2 ^ k) Hp); reflexivity).
  destruct (Z.leb_spec a 0) as [|Ha]; [reflexivity|].
  rewrite (Z.mul_shuffle0 b), leb_scale_r by assumption.
  destruct (b * 2 ^ 1024 <=? a); [reflexivity|].
  unfold cexp. rewrite mag_scale by assumption.
  rewrite (Z.mul_shuffle0 a), (Z.mul_shuffle0 b), !(Z.mul_comm _ (2 ^ k)).
  rewrite half_even_scale; [reflexivity | assumption |].
  apply Z.mul_pos_pos; [assumption | apply pow2_pos; lia].
Qed.

Lemma leb_RN B1 B2 a1 a2 b :
  0 < b -> a1 <= a2 -> Prim2SF B1 = RN false a1 b -> Prim2SF B2 = RN false a2 b ->
  (B1 <=? B2)%float = true.
Proof. intros Hb L E1 E2. rewrite leb_spec, E1, E2. now apply RN_mono. Qed.

(** ** The three validations *)

Lemma validate_distance_ok d :
  validate_distance d = Ok tt <-> distance_violation d = None.
Proof.
  rewrite <- validate_distance_raised. split.
  - intros ->. reflexivity.
  - apply result_unit_eta.
Qed.

(** X1. [validate_distance] accepts the numbers above zero, and a NaN with
    them: a NaN is not [<= 0].  It accepts nothing else. *)
Theorem validate_distance_accepts d :
  validate_distance d = Ok tt <->
  is_positive d = true \/ exists f, d = PyFloat f /\ is_nan f = true.
Proof.
  rewrite validate_distance_ok. unfold distance_violation.
  destruct d as [|b|z|f|s|xs|xs|xs|xs];
    cbn [isinstance_int_float negb nonpositive is_positive];
    try (split; [discriminate | intros [H|(f' & H & _)]; discriminate]).
  - destruct b; cbn [negb]; split; auto; try discriminate.
    intros [H|(f' & H & _)]; discriminate.
  - destruct (Z.leb_spec z 0) as [L|L], (Z.ltb_spec 0 z) as [U|U]; try lia;
      split; auto; try discriminate.
    intros [K|(f' & K & _)]; discriminate.
  - destruct (f <=? 0)%float eqn:E.
    + split; [discriminate|]. intros H.
      assert (E' : (f <=? 0)%float = false).
      { apply leb_0_false. destruct H as [H|(f' & [= <-] & H)]; auto. }
      congruence.
    + split; [intros _|reflexivity]. apply leb_0_false in E. destruct E; eauto.
Qed.










(** ** Distances that are no finite number *)

Lemma valid_no_violation d t r w o :
  distance_violation d = None -> in_catalog t = true ->
  valid_rating r = true -> valid_rating w = true -> valid_rating o = true ->
  first_violation d t r w o = None.
Proof. intros. apply first_violation_none. auto. Qed.

(** X6. A NaN distance passes the validation, and with a tariff of the
    catalog and valid ratings the fare is that NaN: the minimum fare is not
    applied, and the fare is not at least 50. *)
Theorem nan_distance_gives_nan_fare f t r w o :
  is_nan f = true -> in_catalog t = true ->
  valid_rating r = true -> valid_rating w = true -> valid_rating o = true ->
  calculate_fare TaxiCalculator (PyFloat f) t r w o = Ok (PyFloat f) /\
  py_le (MIN_FARE TaxiCalculator) (PyFloat f) = Ok false.
Proof.
  intros N Vt Vr Vw Vo. apply is_nan_eq in N. subst f.
  split; [|vm_compute; reflexivity].
  destruct (catalog_rate t Vt) as (rate & Ht & R).
  destruct (of_Z_rate rate R) as (rf & Hf & _).
  rewrite (calculate_fare_ok (PyFloat nan) t r w o rate (nan * rf)%float).
  - rewrite !mul_nan_l. vm_compute. reflexivity.
  - apply valid_no_violation; auto.
  - exact Ht.
  - unfold py_mul, py_float. cbn [to_num bind]. rewrite Hf. reflexivity.
Qed.

Lemma nan_distance_gives_nan_fare_witness :
  is_nan nan = true /\
  calculate_fare TaxiCalculator (PyFloat nan) (PyStr "бизнес") (PyInt 2) (PyInt 3) (PyInt 4) =
    Ok (PyFloat nan) /\
  py_le (MIN_FARE TaxiCalculator) (PyFloat nan) = Ok false.
Proof.
  split; [reflexivity|].
  apply (nan_distance_gives_nan_fare nan (PyStr "бизнес") (PyInt 2) (PyInt 3) (PyInt 4));
    reflexivity.
Defined.

(** X7. An infinite distance is priced at infinity, with every tariff of
    the catalog and all valid ratings. *)
Theorem infinite_distance_gives_infinite_fare t r w o :
  in_catalog t = true ->
  valid_rating r = true -> valid_rating w = true -> valid_rating o = true ->
  calculate_fare TaxiCalculator (PyFloat infinity) t r w o = Ok (PyFloat infinity).
Proof.
  intros Vt Vr Vw Vo.
  destruct (catalog_rate t Vt) as (rate & Ht & R).
  destruct (of_Z_rate rate R) as (rf & Hf & Pf).
  rewrite (calculate_fare_ok (PyFloat infinity) t r w o rate (infinity * rf)%float).
  - rewrite !mul_infinity_pos by (assumption || now apply total_multiplier_pos).
    vm_compute. reflexivity.
  - apply valid_no_violation; auto.
  - exact Ht.
  - unfold py_mul, py_float. cbn [to_num bind]. rewrite Hf. reflexivity.
Qed.

Lemma infinite_distance_gives_infinite_fare_witness :
  in_catalog (PyStr "комфорт") = true /\
  calculate_fare TaxiCalculator (PyFloat infinity) (PyStr "комфорт")
    (PyInt 2) (PyInt 3) (PyInt 4) = Ok (PyFloat infinity).
Proof.
  split; [reflexivity|].
  apply (infinite_distance_gives_infinite_fare (PyStr "комфорт") (PyInt 2) (PyInt 3) (PyInt 4));
    reflexivity.
Defined.

(** ** Bounds and monotonicity of the fare *)

Lemma total_multiplier_bounds r w o :
  valid_rating r = true -> valid_rating w = true -> valid_rating o = true ->
  (total_multiplier TaxiCalculator (PyInt 1) (PyInt 1) (PyInt 1) <=?
     total_multiplier TaxiCalculator r w o)%float = true /\
  (total_multiplier TaxiCalculator r w o <=?
     total_multiplier TaxiCalculator (PyInt 5) (PyInt 5) (PyInt 5))%float = true.
Proof.
  intros Vr Vw Vo. apply valid_rating_cases in Vr, Vw, Vo. simpl in Vr, Vw, Vo.
  repeat (destruct Vr as [<-|Vr]; [|]); try contradiction;
  repeat (destruct Vw as [<-|Vw]; [|]); try contradiction;
  repeat (destruct Vo as [<-|Vo]; [|]); try contradiction;
    split; vm_compute; reflexivity.
Qed.

(** X8. On a valid request the fare lies between the fare of the same trip
    with all three ratings at 1 and its fare with all three at 5. *)
Theorem fare_between_calm_and_extreme d t r w o lo v hi :
  valid_input d t r w o = true ->
  calculate_fare TaxiCalculator d t (PyInt 1) (PyInt 1) (PyInt 1) = Ok lo ->
  calculate_fare TaxiCalculator d t r w o = Ok v ->
  calculate_fare TaxiCalculator d t (PyInt 5) (PyInt 5) (PyInt 5) = Ok hi ->
  py_le lo v = Ok true /\ py_le v hi = Ok true.
Proof.
  intros V Hlo Hv Hhi. pose proof V as I. apply valid_input_spec in I.
  destruct I as (P & Ct & Vr & Vw & Vo).
  pose proof (positive_no_violation d P) as Vd.
  destruct (catalog_rate t Ct) as (rate & Ht & R).
  destruct (total_multiplier_bounds r w o Vr Vw Vo) as [L U].
  assert (V1 : valid_rating (PyInt 1) = true) by reflexivity.
  assert (V5 : valid_rating (PyInt 5) = true) by reflexivity.
  destruct (base_cases d rate Vd R) as [(B & HB & _ & NB)|(HB & _)].
  - specialize (NB P).
    rewrite (calculate_fare_ok _ _ _ _ _ _ _ (valid_no_violation _ _ _ _ _ Vd Ct V1 V1 V1) Ht HB)
      in Hlo.
    rewrite (calculate_fare_ok _ _ _ _ _ _ _ (valid_no_violation _ _ _ _ _ Vd Ct Vr Vw Vo) Ht HB)
      in Hv.
    rewrite (calculate_fare_ok _ _ _ _ _ _ _ (valid_no_violation _ _ _ _ _ Vd Ct V5 V5 V5) Ht HB)
      in Hhi.
    injection Hlo as <-. injection Hv as <-. injection Hhi as <-.
    split; apply clamp_round_mono;
      try (apply nonneg_mul; [assumption | now apply total_multiplier_pos]);
      apply mul_mono; try assumption; now apply total_multiplier_pos.
  - rewrite (calculate_fare_overflow _ _ _ _ _ _ _
               (valid_no_violation _ _ _ _ _ Vd Ct Vr Vw Vo) Ht HB) in Hv.
    discriminate.
Qed.

Lemma fare_between_calm_and_extreme_witness :
  calculate_fare TaxiCalculator (PyFloat 3.33) (PyStr "эконом")
    (PyBool true) (PyInt 4) (PyInt 2) = Ok (PyFloat 476.19) /\
  py_le (PyFloat 333) (PyFloat 476.19) = Ok true /\
  py_le (PyFloat 476.19) (PyFloat 1998) = Ok true.
Proof.
  split; [vm_compute; reflexivity|].
  apply (fare_between_calm_and_extreme (PyFloat 3.33) (PyStr "эконом")
           (PyBool true) (PyInt 4) (PyInt 2)); vm_compute; reflexivity.
Defined.

Lemma is_le_compare a b : is_le (Some (a ?= b)) = (a <=? b).
Proof. unfold is_le, Z.leb. destruct (a ?= b); reflexivity. Qed.

Lemma compare_Z_fin f z :
  fin (Prim2SF f) = true -> compare_Z f z = Some (scaled (Prim2SF f) ?= z * 2 ^ 1074).
Proof.
  unfold compare_Z. destruct (Prim2SF f) as [s|s| |s m e]; try discriminate; reflexivity.
Qed.

(** [<=] on finite numbers of either type compares their exact values. *)
Lemma py_le_exact d1 d2 x1 x2 :
  exact_value d1 = Some x1 -> exact_value d2 = Some x2 -> py_le d1 d2 = Ok (x1 <=? x2).
Proof.
  assert (P : 0 < 2 ^ 1074) by (apply pow2_pos; lia).
  unfold exact_value, py_le, py_compare.
  destruct (to_num d1) as [[z1|f1]|]; [| |discriminate];
    destruct (to_num d2) as [[z2|f2]|]; try discriminate; cbn [num_cmp].
  - intros [= <-] [= <-]. rewrite is_le_compare, leb_scale_r by assumption. reflexivity.
  - intros [= <-]. destruct (fin (Prim2SF f2)) eqn:F2; [|discriminate]. intros [= <-].
    rewrite compare_Z_fin by assumption. cbn [option_map].
    rewrite <- Z.compare_antisym, is_le_compare. reflexivity.
  - destruct (fin (Prim2SF f1)) eqn:F1; [|discriminate]. intros [= <-] [= <-].
    rewrite compare_Z_fin by assumption. apply f_equal, is_le_compare.
  - destruct (fin (Prim2SF f1)) eqn:F1; [|discriminate]. intros [= <-].
    destruct (fin (Prim2SF f2)) eqn:F2; [|discriminate]. intros [= <-].
    rewrite <- leb_float_cmp, leb_spec. apply f_equal.
    apply SFleb_scaled; auto using Prim2SF_valid.
Qed.

Lemma py_le_infinity d x : exact_value d = Some x -> py_le (PyFloat infinity) d = Ok false.
Proof.
  unfold exact_value, py_le, py_compare. cbn [to_num].
  destruct (to_num d) as [[z|f]|]; [| |discriminate]; cbn [num_cmp]; intros H.
  - reflexivity.
  - rewrite <- leb_float_cmp, leb_spec. change (Prim2SF infinity) with (S754_infinity false).
    destruct (Prim2SF f) as [s|s| |s m e]; try discriminate; reflexivity.
Qed.

Lemma rate_float rate :
  In rate [100; 150; 200; 300] ->
  exists rf m e, of_Z rate = Some rf /\
                 Prim2SF rf = S754_finite false m e /\
                 scaled (S754_finite false m e) = rate * 2 ^ 1074.
Proof.
  simpl. intros [<-|[<-|[<-|[<-|[]]]]].
  - exists 100%float, 7036874417766400%positive, (-46). by_evaluation.
  - exists 150%float, 5277655813324800%positive, (-45). by_evaluation.
  - exists 200%float, 7036874417766400%positive, (-45). by_evaluation.
  - exists 300%float, 5277655813324800%positive, (-44). by_evaluation.
Qed.

Lemma positive_exact d x : is_positive d = true -> exact_value d = Some x -> 0 < x.
Proof.
  assert (P : 0 < 2 ^ 1074) by (apply pow2_pos; lia).
  unfold exact_value. destruct d as [|b|z|f|s|xs|xs|xs|xs]; try discriminate;
    cbn [is_positive to_num].
  - intros -> [= <-]. cbn [Z.b2z]. lia.
  - intros H [= <-]. apply Z.ltb_lt in H. apply Z.mul_pos_pos; assumption.
  - rewrite ltb_spec. change (Prim2SF 0) with (S754_zero false).
    pose proof (Prim2SF_valid f) as V.
    destruct (Prim2SF f) as [s|s| |[|] m e]; cbn; try discriminate.
    intros _ [= <-]. apply (scaled_pos_finite m e V).
Qed.

Lemma positive_infinite d :
  is_positive d = true -> exact_value d = None -> d = PyFloat infinity.
Proof.
  unfold exact_value. destruct d as [|b|z|f|s|xs|xs|xs|xs]; try discriminate;
    cbn [is_positive to_num].
  rewrite ltb_spec. change (Prim2SF 0) with (S754_zero false).
  destruct (Prim2SF f) as [s|[|]| |s m e] eqn:E; cbn; try discriminate.
  intros _ _. f_equal. now apply float_infinity.
Qed.

(** The base fare of a finite distance: the exact product, rounded once. *)
Lemma base_exact d rate x B :
  In rate [100; 150; 200; 300] -> exact_value d = Some x -> 0 < x ->
  (b <- py_mul d (PyInt rate) ;; py_float b) = Ok (PyFloat B) ->
  Prim2SF B = RN false (x * rate) (2 ^ 1074).
Proof.
  intros R. assert (Hr : 100 <= rate <= 300) by (simpl in R; lia).
  assert (P : 0 < 2 ^ 1074) by (apply pow2_pos; lia).
  unfold exact_value, py_mul, py_float. cbn [to_num].
  destruct (to_num d) as [[z|f]|]; [| |discriminate]; cbn [bind to_num].
  - intros Ex Hx. assert (X : x = z * 2 ^ 1074) by congruence. subst x. clear Ex.
    assert (Hz : 0 < z * rate) by nia.
    replace (RN false (z * 2 ^ 1074 * rate) (2 ^ 1074)) with (RN false (z * rate) 1)
      by (rewrite <- (RN_scale false (z * rate) 1 1074), Z.mul_1_l, (Z.mul_shuffle0 z) by lia;
          reflexivity).
    unfold of_Z. destruct (Z.ltb_spec (z * rate) 0); [lia|]. rewrite Z.abs_eq by lia.
    pose proof (Prim2SF_RN false (z * rate) 1 Z.lt_0_1) as V.
    destruct (RN false (z * rate) 1); cbv beta iota; try discriminate;
      intros E; injection E as <-; exact V.
  - destruct (rate_float rate R) as (rf & m & e & -> & Er & S). cbn [bind to_num].
    pose proof (Prim2SF_valid f) as Vf. pose proof (Prim2SF_valid rf) as V.
    rewrite Er in V.
    destruct (Prim2SF f) as [s|s| |s mf ef] eqn:E; try discriminate; cbn [fin scaled];
      intros Ex Hx; [assert (x = 0) by congruence; lia|].
    assert (X : x = scaled (S754_finite s mf ef)) by (cbn [scaled]; congruence).
    clear Ex. intros EB. injection EB as <-.
    rewrite mul_spec, E, Er. unfold SF64mul.
    rewrite SFmul_RN by (assumption || reflexivity).
    destruct s.
    { exfalso. cbn [scaled] in X. apply bounded_spec in Vf.
      assert (0 < Z.pos mf * 2 ^ (ef - emin)); [|lia].
      apply Z.mul_pos_pos; [lia|]. apply pow2_pos. change emin with (-1074). lia. }
    cbn [sign_of xorb]. rewrite S, <- X, !Z.abs_eq by lia.
    replace (2 ^ 2148) with (2 ^ 1074 * 2 ^ 1074)
      by (rewrite <- Z.pow_add_r by lia; reflexivity).
    rewrite Z.mul_assoc. apply RN_scale; lia.
Qed.

Lemma base_infinity rate B :
  In rate [100; 150; 200; 300] ->
  (b <- py_mul (PyFloat infinity) (PyInt rate) ;; py_float b) = Ok (PyFloat B) ->
  B = infinity.
Proof.
  intros R. destruct (of_Z_rate rate R) as (rf & Hf & Pf).
  unfold py_mul, py_float. cbn [to_num bind]. rewrite Hf. cbn [to_num bind].
  intros E. injection E as <-. now apply mul_infinity_pos.
Qed.

(** The base fare grows with the distance. *)
Lemma base_mono d1 d2 rate B1 B2 :
  is_positive d1 = true -> is_positive d2 = true -> In rate [100; 150; 200; 300] ->
  py_le d1 d2 = Ok true ->
  (b <- py_mul d1 (PyInt rate) ;; py_float b) = Ok (PyFloat B1) ->
  (b <- py_mul d2 (PyInt rate) ;; py_float b) = Ok (PyFloat B2) ->
  nonneg B1 = true ->
  (B1 <=? B2)%float = true.
Proof.
  intros P1 P2 R L H1 H2 N1. assert (Hr : 100 <= rate <= 300) by (simpl in R; lia).
  assert (P : 0 < 2 ^ 1074) by (apply pow2_pos; lia).
  destruct (exact_value d2) as [x2|] eqn:E2.
  - destruct (exact_value d1) as [x1|] eqn:E1.
    + rewrite (py_le_exact d1 d2 x1 x2 E1 E2) in L. injection L as L. apply Z.leb_le in L.
      pose proof (positive_exact d1 x1 P1 E1) as X1.
      pose proof (positive_exact d2 x2 P2 E2) as X2.
      apply (leb_RN B1 B2 (x1 * rate) (x2 * rate) (2 ^ 1074)); [assumption | nia | |].
      * now apply (base_exact d1).
      * now apply (base_exact d2).
    + rewrite (positive_infinite d1 P1 E1), (py_le_infinity d2 x2 E2) in L. discriminate L.
  - rewrite (positive_infinite d2 P2 E2) in H2. rewrite (base_infinity rate B2 R H2).
    now apply leb_infinity.
Qed.

(** The base fare grows with the rate. *)
Lemma base_mono_rate d q1 q2 B1 B2 :
  is_positive d = true ->
  In q1 [100; 150; 200; 300] -> In q2 [100; 150; 200; 300] -> q1 <= q2 ->
  (b <- py_mul d (PyInt q1) ;; py_float b) = Ok (PyFloat B1) ->
  (b <- py_mul d (PyInt q2) ;; py_float b) = Ok (PyFloat B2) ->
  (B1 <=? B2)%float = true.
Proof.
  intros Pd R1 R2 L H1 H2.
  assert (P : 0 < 2 ^ 1074) by (apply pow2_pos; lia).
  destruct (exact_value d) as [x|] eqn:E.
  - pose proof (positive_exact d x Pd E) as X.
    apply (leb_RN B1 B2 (x * q1) (x * q2) (2 ^ 1074)); [assumption | nia | |].
    + now apply (base_exact d).
    + now apply (base_exact d).
  - rewrite (positive_infinite d Pd E) in H1, H2.
    rewrite (base_infinity q1 B1 R1 H1), (base_infinity q2 B2 R2 H2). reflexivity.
Qed.

Lemma fare_mono B1 B2 M :
  nonneg B1 = true -> nonneg B2 = true -> pos_finite M = true ->
  (B1 <=? B2)%float = true ->
  py_le (clamp_round (B1 * M)) (clamp_round (B2 * M)) = Ok true.
Proof.
  intros N1 N2 PM L. apply clamp_round_mono.
  - now apply nonneg_mul.
  - now apply nonneg_mul.
  - now apply mul_mono_l.
Qed.

(** X9. The fare never falls when the distance grows: for two valid
    requests that differ in the distance only, [d1 <= d2] gives
    [fare(d1) <= fare(d2)], whether the distances are integers, floats or
    one of each. *)
Theorem fare_monotone_in_distance d1 d2 t r w o v1 v2 :
  valid_input d1 t r w o = true ->
  valid_input d2 t r w o = true ->
  py_le d1 d2 = Ok true ->
  calculate_fare TaxiCalculator d1 t r w o = Ok v1 ->
  calculate_fare TaxiCalculator d2 t r w o = Ok v2 ->
  py_le v1 v2 = Ok true.
Proof.
  intros V1 V2 L H1 H2. pose proof V1 as I1. pose proof V2 as I2.
  apply valid_input_spec in I1, I2.
  destruct I1 as (P1 & Ct & Vr & Vw & Vo). destruct I2 as (P2 & _).
  pose proof (valid_input_no_violation _ _ _ _ _ V1) as NV1.
  pose proof (valid_input_no_violation _ _ _ _ _ V2) as NV2.
  destruct (catalog_rate t Ct) as (rate & Ht & R).
  destruct (base_cases d1 rate (positive_no_violation d1 P1) R)
    as [(B1 & HB1 & _ & N1)|(HB1 & _)].
  2: { rewrite (calculate_fare_overflow _ _ _ _ _ _ _ NV1 Ht HB1) in H1. discriminate. }
  destruct (base_cases d2 rate (positive_no_violation d2 P2) R)
    as [(B2 & HB2 & _ & N2)|(HB2 & _)].
  2: { rewrite (calculate_fare_overflow _ _ _ _ _ _ _ NV2 Ht HB2) in H2. discriminate. }
  rewrite (calculate_fare_ok _ _ _ _ _ _ _ NV1 Ht HB1) in H1. injection H1 as <-.
  rewrite (calculate_fare_ok _ _ _ _ _ _ _ NV2 Ht HB2) in H2. injection H2 as <-.
  apply fare_mono; auto using total_multiplier_pos.
  now apply (base_mono d1 d2 rate); auto.
Qed.

Lemma fare_monotone_in_distance_witness :
  py_le (PyInt 3) (PyFloat 3.33) = Ok true /\
  calculate_fare TaxiCalculator (PyInt 3) (PyStr "комфорт") (PyInt 1) (PyInt 3) (PyInt 1) =
    Ok (PyFloat 517.5) /\
  calculate_fare TaxiCalculator (PyFloat 3.33) (PyStr "комфорт") (PyInt 1) (PyInt 3) (PyInt 1) =
    Ok (PyFloat 574.42) /\
  py_le (PyFloat 517.5) (PyFloat 574.42) = Ok true.
Proof.
  split; [vm_compute; reflexivity|]. split; [vm_compute; reflexivity|].
  split; [vm_compute; reflexivity|].
  apply (fare_monotone_in_distance (PyInt 3) (PyFloat 3.33) (PyStr "комфорт")
           (PyInt 1) (PyInt 3) (PyInt 1)); vm_compute; reflexivity.
Defined.

(** X10. The fare never falls when the rate of the tariff grows: the same
    trip under the same ratings costs no more with "эконом" than with
    "комфорт", no more with "комфорт" than with "комфорт_плюс", and no more
    with that than with "бизнес". *)
Theorem fare_monotone_in_rate d t1 t2 q1 q2 r w o v1 v2 :
  valid_input d t1 r w o = true ->
  rate_of t1 = Some q1 -> rate_of t2 = Some q2 -> q1 <= q2 ->
  calculate_fare TaxiCalculator d t1 r w o = Ok v1 ->
  calculate_fare TaxiCalculator d t2 r w o = Ok v2 ->
  py_le v1 v2 = Ok true.
Proof.
  intros V1 Q1 Q2 L H1 H2. pose proof V1 as I1. apply valid_input_spec in I1.
  destruct I1 as (Pd & Ct1 & Vr & Vw & Vo).
  assert (Ct2 : in_catalog t2 = true) by (rewrite in_catalog_rate, Q2; reflexivity).
  pose proof (positive_no_violation d Pd) as Vd.
  pose proof (valid_no_violation d t1 r w o Vd Ct1 Vr Vw Vo) as NV1.
  pose proof (valid_no_violation d t2 r w o Vd Ct2 Vr Vw Vo) as NV2.
  assert (Ht1 : dict_get (TARIFF_RATES TaxiCalculator) t1 = Some (PyInt q1))
    by (rewrite catalog_get, Q1; reflexivity).
  assert (Ht2 : dict_get (TARIFF_RATES TaxiCalculator) t2 = Some (PyInt q2))
    by (rewrite catalog_get, Q2; reflexivity).
  pose proof (rate_of_cases t1 q1 Q1) as R1. pose proof (rate_of_cases t2 q2 Q2) as R2.
  destruct (base_cases d q1 Vd R1) as [(B1 & HB1 & _ & N1)|(HB1 & _)].
  2: { rewrite (calculate_fare_overflow _ _ _ _ _ _ _ NV1 Ht1 HB1) in H1. discriminate. }
  destruct (base_cases d q2 Vd R2) as [(B2 & HB2 & _ & N2)|(HB2 & _)].
  2: { rewrite (calculate_fare_overflow _ _ _ _ _ _ _ NV2 Ht2 HB2) in H2. discriminate. }
  rewrite (calculate_fare_ok _ _ _ _ _ _ _ NV1 Ht1 HB1) in H1. injection H1 as <-.
  rewrite (calculate_fare_ok _ _ _ _ _ _ _ NV2 Ht2 HB2) in H2. injection H2 as <-.
  apply fare_mono; auto using total_multiplier_pos.
  now apply (base_mono_rate d q1 q2).
Qed.

Lemma fare_monotone_in_rate_witness :
  calculate_fare TaxiCalculator (PyFloat 3.33) (PyStr "эконом") (PyInt 1) (PyInt 3) (PyInt 1) =
    Ok (PyFloat 382.95) /\
  calculate_fare TaxiCalculator (PyFloat 3.33) (PyStr "комфорт") (PyInt 1) (PyInt 3) (PyInt 1) =
    Ok (PyFloat 574.42) /\
  py_le (PyFloat 382.95) (PyFloat 574.42) = Ok true.
Proof.
  split; [vm_compute; reflexivity|]. split; [vm_compute; reflexivity|].
  apply (fare_monotone_in_rate (PyFloat 3.33) (PyStr "эконом") (PyStr "комфорт") 100 150
           (PyInt 1) (PyInt 3) (PyInt 1)); vm_compute; (reflexivity || discriminate).
Defined.

(** ** The entry point *)

